(** * Prompt templates: the template loader and the prompt optimizer

    A shallow embedding of [template_loader.py] and [prompt_optimizer.py].

    Python [str] values are sequences of Unicode code points and are modelled
    as [list N].  Dictionaries whose iteration order is observable
    ([valores.items()], [self.templates.keys()]) are association lists in
    insertion order.  Calls that can raise return a [result]. *)

From Stdlib Require Import String Ascii Strings.Byte.
From Stdlib Require Import List NArith ZArith Bool Lia Permutation.
Import ListNotations.

Set Implicit Arguments.

(** ** Python strings *)

Module PyStr.

Definition char := N.
Definition str := list char.

(** Decoding of the UTF-8 bytes of a source literal into code points. *)
Fixpoint utf8_decode (bs : list N) : str :=
  match bs with
  | [] => []
  | b0 :: r0 =>
      if (b0 <? 128)%N then b0 :: utf8_decode r0
      else if (b0 <? 224)%N then
        match r0 with
        | b1 :: r1 => ((b0 - 192) * 64 + (b1 - 128))%N :: utf8_decode r1
        | [] => []
        end
      else if (b0 <? 240)%N then
        match r0 with
        | b1 :: b2 :: r2 =>
            ((b0 - 224) * 4096 + (b1 - 128) * 64 + (b2 - 128))%N :: utf8_decode r2
        | _ => []
        end
      else
        match r0 with
        | b1 :: b2 :: b3 :: r3 =>
            ((b0 - 240) * 262144 + (b1 - 128) * 4096 + (b2 - 128) * 64 + (b3 - 128))%N
              :: utf8_decode r3
        | _ => []
        end
  end.

(** [U "..."] is the Python string written as the literal ["..."]. *)
Definition U (s : string) : str :=
  utf8_decode (map Byte.to_N (list_byte_of_string s)).

Definition nl : char := 10%N.
Definition lbrace : char := 123%N.
Definition rbrace : char := 125%N.

Definition str_eqb (a b : str) : bool :=
  if list_eq_dec N.eq_dec a b then true else false.

Definition is_empty (s : str) : bool :=
  match s with [] => true | _ => false end.

Definition is_nil (A : Type) (l : list A) : bool :=
  match l with [] => true | _ => false end.

(** [s.startswith(p)] *)
Fixpoint starts_with (p s : str) : bool :=
  match p, s with
  | [], _ => true
  | _ :: _, [] => false
  | a :: p', b :: s' => (a =? b)%N && starts_with p' s'
  end.

(** [old in s] *)
Fixpoint contains (old s : str) : bool :=
  starts_with old s ||
  match s with
  | [] => false
  | _ :: s' => contains old s'
  end.

(** [s.replace(old, new)]: every leftmost non-overlapping occurrence of [old]
    is replaced, the scan resuming after the occurrence.  An empty [old]
    matches before every character and at the end. *)
Fixpoint replace_fuel (fuel : nat) (old new s : str) : str :=
  match fuel with
  | O => []
  | S fuel' =>
      match old with
      | [] =>
          match s with
          | [] => new
          | c :: s' => new ++ c :: replace_fuel fuel' old new s'
          end
      | _ :: _ =>
          match s with
          | [] => []
          | c :: s' =>
              if starts_with old s
              then new ++ replace_fuel fuel' old new (skipn (length old) s)
              else c :: replace_fuel fuel' old new s'
          end
      end
  end.

Definition replace (old new s : str) : str :=
  replace_fuel (S (length s)) old new s.

(** [sep.join(parts)] *)
Fixpoint join (sep : str) (parts : list str) : str :=
  match parts with
  | [] => []
  | [p] => p
  | p :: rest => p ++ sep ++ join sep rest
  end.

(** [str.isspace] on one code point: the characters on which [split()]
    without arguments separates words. *)
Definition isspace (c : char) : bool :=
  ((9 <=? c) && (c <=? 13) || (28 <=? c) && (c <=? 32)
   || (c =? 133) || (c =? 160) || (c =? 5760)
   || (8192 <=? c) && (c <=? 8202)
   || (c =? 8232) || (c =? 8233) || (c =? 8239) || (c =? 8287)
   || (c =? 12288))%N.

(** [s.split()]: the maximal runs of non-whitespace characters. *)
Fixpoint split_words (cur : str) (s : str) : list str :=
  match s with
  | [] => if is_empty cur then [] else [cur]
  | c :: s' =>
      if isspace c
      then (if is_empty cur then split_words [] s' else cur :: split_words [] s')
      else split_words (cur ++ [c]) s'
  end.

Definition split (s : str) : list str := split_words [] s.

(** [s.split(sep)] for a one-character separator: never the empty list. *)
Fixpoint split_sep (sep : char) (cur : str) (s : str) : list str :=
  match s with
  | [] => [cur]
  | c :: s' =>
      if (c =? sep)%N then cur :: split_sep sep [] s'
      else split_sep sep (cur ++ [c]) s'
  end.

Definition split_on (sep : char) (s : str) : list str := split_sep sep [] s.

(** [dict.get(k)] / [k in dict] on a dictionary kept in insertion order. *)
Fixpoint get (V : Type) (k : str) (d : list (str * V)) : option V :=
  match d with
  | [] => None
  | (k', v) :: d' => if str_eqb k' k then Some v else get k d'
  end.

Definition has_key (V : Type) (k : str) (d : list (str * V)) : bool :=
  match get k d with Some _ => true | None => false end.

(** The text before and after the first occurrence of [stop]. *)
Fixpoint break_at (stop : char) (s : str) : option (str * str) :=
  match s with
  | [] => None
  | c :: s' =>
      if (c =? stop)%N then Some ([], s')
      else match break_at stop s' with
           | Some (before, after) => Some (c :: before, after)
           | None => None
           end
  end.

(** [re.findall(r'\{([^}]+)\}', texto)], the pattern both classes use.  At
    an opening brace the class [[^}]+] runs to the first closing brace; the
    match fails when that run is empty or no closing brace follows, and the
    search moves on by one character.  After a match it resumes behind the
    closing brace. *)
Fixpoint findall_fuel (fuel : nat) (s : str) : list str :=
  match fuel with
  | O => []
  | S fuel' =>
      match s with
      | [] => []
      | c :: rest =>
          if (c =? lbrace)%N then
            match break_at rbrace rest with
            | Some (name, after) =>
                if is_empty name then findall_fuel fuel' rest
                else name :: findall_fuel fuel' after
            | None => findall_fuel fuel' rest
            end
          else findall_fuel fuel' rest
      end
  end.

Definition findall_placeholders (texto : str) : list str :=
  findall_fuel (length texto) texto.

End PyStr.

Import PyStr.

(** ** Exceptions *)

Inductive exn : Type :=
| KeyError (k : str)
| IndexError
| ValueError
| TypeError
| AttributeError
| Unsupported.

Inductive result (A : Type) : Type :=
| Ok (a : A)
| Raise (e : exn).

Arguments Ok {A} a.
Arguments Raise {A} e.

Definition bind (A B : Type) (r : result A) (k : A -> result B) : result B :=
  match r with
  | Ok a => k a
  | Raise e => Raise e
  end.

Notation "x <- r ;; k" := (bind r (fun x => k))
  (at level 61, r at next level, right associativity).

(** ** [random.choice] *)

Module PyRandom.

(** [random.choice(seq)] is [seq[self._randbelow(len(seq))]], and raises
    [IndexError] on an empty sequence.  The generator is a parameter:
    [randbelow n] is the number it draws below [n]. *)
Definition choice (A : Type) (randbelow : nat -> nat) (seq : list A) : result A :=
  match nth_error seq (randbelow (length seq)) with
  | Some x => Ok x
  | None => Raise IndexError
  end.

End PyRandom.

(** ** template_loader.py *)

Module TemplateLoader.

(** The values found in a template object of the JSON catalog: texts, and the
    example mapping [exemplo_preenchido]. *)
Inductive value : Type :=
| VStr (s : str)
| VDict (d : list (str * str)).

(** A template object, keys in insertion order. *)
Definition dict := list (str * value).

(** The loaded catalog [self.templates]: either top-level key may be absent,
    as in the structure substituted on a load failure. *)
Record Catalogo : Type := {
  cat_templates : option (list dict);
  cat_dicas : option (list str)
}.

Record TemplateLoader : Type := {
  templates_file : str;
  templates : Catalogo
}.


(** [self.templates.get('templates', [])] *)
Definition lista_templates (self : TemplateLoader) : list dict :=
  match cat_templates (templates self) with
  | Some ts => ts
  | None => []
  end.

(** The argument of [obter_template]: [isinstance(nome_ou_indice, int)]
    selects the first constructor. *)
Inductive chave : Type :=
| Índice (i : Z)
| Nome (s : str).

(** [t[k]] where the code goes on to call [.lower()] on it. *)
Definition item_texto (k : str) (t : dict) : result str :=
  match get k t with
  | None => Raise (KeyError k)
  | Some (VStr s) => Ok s
  | Some (VDict _) => Raise AttributeError
  end.

Section Lower.

(** [str.lower], the built-in. *)
Variable lower : str -> str.

(** The loop [for template in templates] of [obter_template]. *)
Fixpoint procurar_nome (nome : str) (ts : list dict) : result (option dict) :=
  match ts with
  | [] => Ok None
  | template :: resto =>
      n <- item_texto (U "nome") template ;;
      if str_eqb (lower n) (lower nome) then Ok (Some template)
      else procurar_nome nome resto
  end.

Definition obter_template (self : TemplateLoader) (nome_ou_indice : chave)
  : result (option dict) :=
  let templates := lista_templates self in
  match nome_ou_indice with
  | Índice i =>
      if ((0 <=? i) && (i <? Z.of_nat (length templates)))%Z then
        match nth_error templates (Z.to_nat i) with
        | Some t => Ok (Some t)
        | None => Raise IndexError
        end
      else Ok None
  | Nome nome => procurar_nome nome templates
  end.

(** The comprehension of [obter_template_por_categoria]. *)
Fixpoint filtrar_categoria (categoria : str) (ts : list dict) : result (list dict) :=
  match ts with
  | [] => Ok []
  | t :: resto =>
      c <- item_texto (U "categoria") t ;;
      r <- filtrar_categoria categoria resto ;;
      Ok (if str_eqb (lower c) (lower categoria) then t :: r else r)
  end.

Definition obter_template_por_categoria (self : TemplateLoader) (categoria : str)
  : result (list dict) :=
  filtrar_categoria categoria (lista_templates self).

End Lower.

Definition _extrair_placeholders (texto : str) : list str :=
  findall_placeholders texto.

(** One turn of the loop [for chave, valor in valores.items()]. *)
Definition substituir (prompt_preenchido : str) (entrada : str * str) : str :=
  let (chave, valor) := entrada in
  let placeholder := lbrace :: chave ++ [rbrace] in
  if contains placeholder prompt_preenchido
  then replace placeholder valor prompt_preenchido
  else prompt_preenchido.

Definition msg_template_inválido : str := U "Template inválido.".
Definition msg_valores_faltantes : str := U "Valores faltantes: ".
Definition vírgula : str := U ", ".

(** [template] is [None] or a dictionary; [valores] maps names to texts. *)
Definition preencher_template (template : option dict) (valores : list (str * str))
  : result str :=
  match template with
  | None => Ok msg_template_inválido
  | Some d =>
      if is_nil d || negb (has_key (U "template") d) then Ok msg_template_inválido
      else
        match get (U "template") d with
        | Some (VStr prompt_template) =>
            let placeholders := _extrair_placeholders prompt_template in
            let valores_faltantes :=
              filter (fun p => negb (has_key p valores)) placeholders in
            if negb (is_nil valores_faltantes) then
              Ok (msg_valores_faltantes ++ join vírgula valores_faltantes)
            else Ok (fold_left substituir valores prompt_template)
        | Some (VDict _) => Raise TypeError
        | None => Raise (KeyError (U "template"))
        end
  end.

(** [t[k]] *)
Definition getitem (k : str) (t : dict) : result value :=
  match get k t with
  | Some v => Ok v
  | None => Raise (KeyError k)
  end.

(** The comprehension of [listar_templates]: for each template the name,
    then the category. *)
Fixpoint listar (ts : list dict) : result (list (value * value)) :=
  match ts with
  | [] => Ok []
  | t :: resto =>
      nome <- getitem (U "nome") t ;;
      categoria <- getitem (U "categoria") t ;;
      l <- listar resto ;;
      Ok ((nome, categoria) :: l)
  end.

Definition listar_templates (self : TemplateLoader) : result (list (value * value)) :=
  listar (lista_templates self).




Definition msg_sem_dicas : str := U "Não há dicas disponíveis.".

Definition obter_dica_aleatória (self : TemplateLoader) (randbelow : nat -> nat)
  : result str :=
  let dicas := match cat_dicas (templates self) with
               | Some ds => ds
               | None => []
               end in
  if negb (is_nil dicas) then PyRandom.choice randbelow dicas
  else Ok msg_sem_dicas.

End TemplateLoader.

(** ** prompt_optimizer.py *)

Module PromptOptimizer.

(** *** [str.format] with keyword arguments only

    The format strings of this class use replacement fields that are plain
    keyword names, and that is what is modelled: literal text, the escapes
    of doubled braces, and fields [{name}] looked up in [kwargs].  A field
    counts as a plain keyword name when it holds an ASCII letter or an
    underscore and none of the characters that start a conversion, a format
    specification, an attribute or index access or a nested field; every
    other field (the positional ones among them) yields [Unsupported].
    Fields are rendered from left to right, so the first missing name raises
    before anything behind it is parsed. *)

Definition ascii_letter (c : char) : bool :=
  ((65 <=? c) && (c <=? 90) || (97 <=? c) && (c <=? 122) || (c =? 95))%N.

Definition field_special (c : char) : bool :=
  ((c =? 123) || (c =? 33) || (c =? 58) || (c =? 46) || (c =? 91))%N.

Definition campo_simples (field : str) : bool :=
  existsb ascii_letter field && negb (existsb field_special field).

Fixpoint format_fuel (fuel : nat) (s : str) (kwargs : list (str * str)) : result str :=
  match fuel with
  | O => Ok []
  | S fuel' =>
      match s with
      | [] => Ok []
      | c :: rest =>
          if (c =? lbrace)%N then
            match rest with
            | [] => Raise ValueError
            | c1 :: rest1 =>
                if (c1 =? lbrace)%N then
                  r <- format_fuel fuel' rest1 kwargs ;; Ok (lbrace :: r)
                else
                  match break_at rbrace rest with
                  | None => Raise ValueError
                  | Some (field, after) =>
                      if campo_simples field then
                        match get field kwargs with
                        | None => Raise (KeyError field)
                        | Some v => r <- format_fuel fuel' after kwargs ;; Ok (v ++ r)
                        end
                      else Raise Unsupported
                  end
            end
          else if (c =? rbrace)%N then
            match rest with
            | [] => Raise ValueError
            | c1 :: rest1 =>
                if (c1 =? rbrace)%N then
                  r <- format_fuel fuel' rest1 kwargs ;; Ok (rbrace :: r)
                else Raise ValueError
            end
          else r <- format_fuel fuel' rest kwargs ;; Ok (c :: r)
      end
  end.

Definition format (template : str) (kwargs : list (str * str)) : result str :=
  format_fuel (length template) template kwargs.

(** *** The attributes set by [__init__] *)

Definition templates : list (str * str) :=
  [ (U "criativo",
     U "Atue como {persona}. {contexto} Crie {output_type} sobre {tema} com {estilo}.");
    (U "técnico",
     U "Você é um especialista em {área}. {contexto} Explique {conceito} com {nível_detalhe}.");
    (U "análise",
     U "Como {persona}, analise {objeto_análise}. {contexto} Forneça {tipo_análise} considerando {aspectos}.");
    (U "instrução",
     U "Atue como {persona}. {contexto} Forneça instruções detalhadas sobre como {tarefa}, considerando {considerações}.");
    (U "pesquisa",
     U "Como pesquisador em {área}, {contexto} Investigue {tópico} e forneça {tipo_resultado} focando em {aspectos}.") ].

Definition persona_options : list str :=
  [ U "um professor universitário"; U "um especialista renomado";
    U "um consultor experiente"; U "um pesquisador premiado";
    U "um mentor dedicado"; U "um analista crítico";
    U "um criativo inspirado"; U "um estrategista inovador";
    U "um comunicador habilidoso" ].

Definition básico : str := U "básico".
Definition detalhado : str := U "detalhado".
Definition avançado : str := U "avançado".

Definition estrutura_prompt : list (str * str) :=
  [ (básico, U "{instrução}");
    (detalhado,
     U "{instrução}" ++ [nl; nl] ++ U "Contexto: {contexto}" ++ [nl]
       ++ U "Objetivo: {objetivo}" ++ [nl] ++ U "Formato desejado: {formato}");
    (avançado,
     U "# TAREFA" ++ [nl] ++ U "{instrução}" ++ [nl; nl]
       ++ U "# CONTEXTO" ++ [nl] ++ U "{contexto}" ++ [nl; nl]
       ++ U "# OBJETIVO" ++ [nl] ++ U "{objetivo}" ++ [nl; nl]
       ++ U "# FORMATO" ++ [nl] ++ U "{formato}" ++ [nl; nl]
       ++ U "# RESTRIÇÕES" ++ [nl] ++ U "{restrições}" ++ [nl; nl]
       ++ U "# EXEMPLOS" ++ [nl] ++ U "{exemplos}") ].

Definition vírgula : str := U ", ".
Definition msg_tipo_inválido : str := U "Tipo inválido. Tipos disponíveis: ".
Definition msg_parâmetros_faltantes : str := U "Parâmetros faltantes: ".
Definition msg_nível_inválido : str := U "Nível inválido. Níveis disponíveis: ".

Definition gerar_prompt_básico (tipo : str) (kwargs : list (str * str)) : result str :=
  match get tipo templates with
  | None =>
      let tipos_disponíveis := join vírgula (map fst templates) in
      Ok (msg_tipo_inválido ++ tipos_disponíveis)
  | Some template =>
      match format template kwargs with
      | Ok texto => Ok texto
      | Raise (KeyError _) =>
          let parâmetros_faltantes := findall_placeholders template in
          Ok (msg_parâmetros_faltantes ++ join vírgula parâmetros_faltantes)
      | Raise e => Raise e
      end
  end.

(** *** [otimizar_prompt] and its three layouts *)

Definition sufixo_expansão : str :=
  [nl; nl]
  ++ U "Por favor, forneça uma resposta detalhada e estruturada. "
  ++ U "Inclua exemplos relevantes e passos concretos quando aplicável. "
  ++ U "Considere diferentes perspectivas e contextos.".

Definition _expandir_prompt (prompt : str) : str :=
  prompt ++ sufixo_expansão.

Definition formato_desejado : str :=
  [nl; nl]
  ++ U "# FORMATO DESEJADO" ++ [nl]
  ++ U "- Comece com uma introdução concisa" ++ [nl]
  ++ U "- Organize a informação em seções claras" ++ [nl]
  ++ U "- Utilize bullets para pontos importantes" ++ [nl]
  ++ U "- Conclua com um resumo aplicável" ++ [nl]
  ++ U "- Use linguagem precisa e exemplos quando necessário".

Definition _estruturar_prompt (prompt : str) : str :=
  U "# INSTRUÇÃO" ++ [nl] ++ prompt ++ formato_desejado.

Definition parâmetros_de_qualidade : str :=
  U "# PARÂMETROS DE QUALIDADE" ++ [nl]
  ++ U "1. Precisão: Forneça informações corretas e verificáveis" ++ [nl]
  ++ U "2. Relevância: Mantenha o foco no objetivo principal" ++ [nl]
  ++ U "3. Estrutura: Organize a resposta de forma lógica" ++ [nl]
  ++ U "4. Profundidade: Equilibre detalhes suficientes sem prolixidade" ++ [nl]
  ++ U "5. Clareza: Use linguagem simples e direta" ++ [nl; nl].

Definition _refinar_prompt (prompt : str) : str :=
  let linhas := split_on nl prompt in
  let instrução := match linhas with l0 :: _ => l0 | [] => prompt end in
  let contexto := U "Entendendo o contexto completo fornecido" in
  U "# OBJETIVO PRINCIPAL" ++ [nl] ++ instrução ++ [nl; nl]
  ++ U "# CONTEXTO" ++ [nl] ++ contexto ++ [nl; nl]
  ++ parâmetros_de_qualidade
  ++ U "# PROMPT ORIGINAL" ++ [nl] ++ prompt.

Definition otimizar_prompt (prompt_original : str) : str :=
  let palavras := length (split prompt_original) in
  if palavras <? 10 then _expandir_prompt prompt_original
  else if palavras <? 30 then _estruturar_prompt prompt_original
  else _refinar_prompt prompt_original.

(** *** [gerar_prompt_estruturado] *)

Record Campos : Type := {
  instrução : str;
  contexto : str;
  objetivo : str;
  formato : str;
  restrições : str;
  exemplos : str
}.

Definition padrão_contexto : str :=
  U "Considere o contexto atual e as melhores práticas.".
Definition padrão_objetivo : str :=
  U "Fornecer informação clara, precisa e útil.".
Definition padrão_formato : str :=
  U "Texto estruturado com parágrafos lógicos e pontos principais destacados.".
Definition padrão_restrições : str :=
  U "Mantenha a resposta concisa e focada no objetivo.".
Definition padrão_exemplos : str :=
  U "Exemplo 1: [Breve exemplo relacionado]".

(** The five [if not campo and nível ...] assignments, in order. *)
Definition preencher_padrões (nível : str) (c : Campos) : Campos :=
  let contexto' :=
    if is_empty (contexto c) && negb (str_eqb nível básico)
    then padrão_contexto else contexto c in
  let objetivo' :=
    if is_empty (objetivo c) && negb (str_eqb nível básico)
    then padrão_objetivo else objetivo c in
  let formato' :=
    if is_empty (formato c) && negb (str_eqb nível básico)
    then padrão_formato else formato c in
  let restrições' :=
    if is_empty (restrições c) && str_eqb nível avançado
    then padrão_restrições else restrições c in
  let exemplos' :=
    if is_empty (exemplos c) && str_eqb nível avançado
    then padrão_exemplos else exemplos c in
  {| instrução := instrução c; contexto := contexto'; objetivo := objetivo';
     formato := formato'; restrições := restrições'; exemplos := exemplos' |}.

Definition kwargs_de (c : Campos) : list (str * str) :=
  [ (U "instrução", instrução c); (U "contexto", contexto c);
    (U "objetivo", objetivo c); (U "formato", formato c);
    (U "restrições", restrições c); (U "exemplos", exemplos c) ].

Definition gerar_prompt_estruturado (nível : str) (c : Campos) : result str :=
  match get nível estrutura_prompt with
  | None =>
      let níveis_disponíveis := join vírgula (map fst estrutura_prompt) in
      Ok (msg_nível_inválido ++ níveis_disponíveis)
  | Some template => format template (kwargs_de (preencher_padrões nível c))
  end.

Definition sugerir_persona (randbelow : nat -> nat) : result str :=
  PyRandom.choice randbelow persona_options.

End PromptOptimizer.

(** * Properties *)

Import TemplateLoader PromptOptimizer.

Unset Implicit Arguments.

(** ** Vocabulary of the statements *)

(** A text of [n] words. *)
Definition texto_de (n : nat) : str := join (U " ") (repeat (U "palavra") n).

(** [campo] when it is not empty, the canned sentence otherwise. *)
Definition ou_padrão (campo padrão : str) : str :=
  if is_empty campo then padrão else campo.

(** A call that passes the instruction and leaves the other fields empty. *)
Definition campos_só_instrução : Campos :=
  {| instrução := U "Resuma o texto"; contexto := []; objetivo := [];
     formato := []; restrições := []; exemplos := [] |}.

(** The template object [t] has a text under the key [k]. *)
Definition tem_texto (k : str) (t : dict) : Prop :=
  exists s, get k t = Some (VStr s).

(** The test of the comprehension in [obter_template_por_categoria]. *)
Definition casa_categoria (lower : str -> str) (categoria : str) (t : dict) : bool :=
  match get (U "categoria") t with
  | Some (VStr c) => str_eqb (lower c) (lower categoria)
  | _ => false
  end.

(** [str.lower] on the letters of Basic Latin and Latin-1, the identity
    elsewhere: enough to run the lookups on Portuguese names. *)
Definition lower_latin1 (s : str) : str :=
  map (fun c : char =>
         if ((65 <=? c) && (c <=? 90)
             || (192 <=? c) && (c <=? 222) && negb (c =? 215))%N
         then (c + 32)%N else c) s.

(** A loader whose catalog holds two templates and one tip. *)
Definition catálogo_exemplo : TemplateLoader.TemplateLoader :=
  {| templates_file := U "prompt_templates.json";
     TemplateLoader.templates :=
       {| cat_templates :=
            Some [ [ (U "nome", VStr (U "Explicação Técnica"));
                     (U "categoria", VStr (U "Técnico"));
                     (U "template", VStr (U "Explique {conceito} com {nível}")) ];
                   [ (U "nome", VStr (U "História Curta"));
                     (U "categoria", VStr (U "Criativo"));
                     (U "template", VStr (U "Conte {tema} em {tom}")) ] ];
          cat_dicas := Some [ U "Seja específico." ] |} |}.

(** A text cut the way the placeholder pattern reads it: placeholder tokens
    and the characters between them. *)
Inductive item : Type :=
| Chr (c : char)
| Tok (name : str).

Fixpoint tokenize_fuel (fuel : nat) (s : str) : list item :=
  match fuel with
  | O => []
  | S fuel' =>
      match s with
      | [] => []
      | c :: rest =>
          if (c =? lbrace)%N then
            match break_at rbrace rest with
            | Some (name, after) =>
                if is_empty name then Chr c :: tokenize_fuel fuel' rest
                else Tok name :: tokenize_fuel fuel' after
            | None => Chr c :: tokenize_fuel fuel' rest
            end
          else Chr c :: tokenize_fuel fuel' rest
      end
  end.

(** The cut follows [findall_fuel] step by step. *)
Definition tokenize (s : str) : list item := tokenize_fuel (length s) s.

(** The text an item stands for. *)
Definition render_item (it : item) : str :=
  match it with
  | Chr c => [c]
  | Tok name => lbrace :: name ++ [rbrace]
  end.

Definition render (its : list item) : str := flat_map render_item its.

(** The names of the tokens, in order. *)
Definition tok_names (its : list item) : list str :=
  flat_map (fun it => match it with Chr _ => [] | Tok n => [n] end) its.

(** The template with each placeholder replaced by its value, in one pass
    from left to right: nothing that was put in is read again. *)
Definition substituir_uma_passagem (texto : str) (valores : list (str * str)) : str :=
  flat_map (fun it =>
              match it with
              | Chr c => [c]
              | Tok name =>
                  match get name valores with
                  | Some valor => valor
                  | None => render_item it
                  end
              end) (tokenize texto).

(** The names of [l] in order of first occurrence, each once. *)
Fixpoint sem_repetição (vistos : list str) (l : list str) : list str :=
  match l with
  | [] => []
  | x :: r =>
      if existsb (str_eqb x) vistos then sem_repetição vistos r
      else x :: sem_repetição (x :: vistos) r
  end.

(** The placeholders of [texto] that [valores] does not bind, in order of
    occurrence. *)
Definition faltantes (texto : str) (valores : list (str * str)) : list str :=
  filter (fun p => negb (has_key p valores)) (findall_placeholders texto).

(** A template object that holds the format string [texto]. *)
Definition template_com (texto : str) : option dict :=
  Some [ (U "nome", VStr (U "exemplo")); (U "categoria", VStr (U "geral"));
         (U "template", VStr texto) ].

(** An opening brace that stands as a character is followed at once by a
    closing brace or by no closing brace at all: no placeholder pattern can
    start there. *)
Fixpoint inert (its : list item) : Prop :=
  match its with
  | [] => True
  | Chr c :: rest =>
      (c = lbrace ->
       (exists r, rest = Chr rbrace :: r) \/ ~ In rbrace (render rest))
      /\ inert rest
  | Tok _ :: rest => inert rest
  end.

(** Every token whose name [f] binds gives way to the bound text. *)
Definition subst_with (f : str -> option str) (its : list item) : list item :=
  flat_map (fun it =>
              match it with
              | Chr c => [Chr c]
              | Tok n => match f n with
                         | Some v => map Chr v
                         | None => [Tok n]
                         end
              end) its.

(** The binding of one entry. *)
Definition único (k v : str) : str -> option str :=
  fun n => if str_eqb n k then Some v else None.

(** A name without braces. *)
Definition sem_chaves (s : str) : Prop := ~ In lbrace s /\ ~ In rbrace s.

(** A key that is a plain name: not empty, no brace. *)
Definition chave_simples (k : str) : Prop := k <> [] /\ sem_chaves k.

Definition str_dec : forall a b : str, {a = b} + {a <> b} := list_eq_dec N.eq_dec.

(** The format string of the end-to-end example. *)
Definition explique : str := U "Explique {conceito} com {nível}".

(** The format string of the type técnico. *)
Definition template_técnico : str :=
  U "Você é um especialista em {área}. {contexto} Explique {conceito} com {nível_detalhe}.".

Definition d_explique : dict :=
  [ (U "nome", VStr (U "Explicação")); (U "categoria", VStr (U "Técnico"));
    (U "template", VStr explique) ].

(** The first line of a text, as [_refinar_prompt] takes it. *)
Definition primeira_linha (prompt : str) : str :=
  match split_on nl prompt with
  | l0 :: _ => l0
  | [] => prompt
  end.

(** A word: not empty, no whitespace in it. *)
Definition palavra (w : str) : Prop :=
  w <> [] /\ Forall (fun c => isspace c = false) w.

(** The number of words [split] finds. *)
Definition palavras (s : str) : nat := length (split s).

(** The generator draws below its bound. *)
Definition gerador_válido (randbelow : nat -> nat) : Prop :=
  forall n, 0 < n -> randbelow n < n.

(** The template object [t] has the key [k]. *)
Definition tem_chave (k : str) (t : dict) : Prop :=
  exists v, get k t = Some v.

(** [self.templates.get('dicas_otimização', [])] *)
Definition lista_dicas (self : TemplateLoader.TemplateLoader) : list str :=
  match cat_dicas (TemplateLoader.templates self) with
  | Some ds => ds
  | None => []
  end.

(** [preencher_template(obter_template(chave), valores)] *)
Definition obter_e_preencher (lower : str -> str)
           (self : TemplateLoader.TemplateLoader) (k : chave)
           (valores : list (str * str)) : result str :=
  t <- obter_template lower self k ;; preencher_template t valores.

(** A catalog with the single tip [dica]. *)
Definition catálogo_de_dica (dica : str) : TemplateLoader.TemplateLoader :=
  {| templates_file := U "prompt_templates.json";
     TemplateLoader.templates :=
       {| cat_templates := Some []; cat_dicas := Some [dica] |} |}.

(** A catalog whose second template has no name. *)
Definition catálogo_incompleto : TemplateLoader.TemplateLoader :=
  {| templates_file := U "prompt_templates.json";
     TemplateLoader.templates :=
       {| cat_templates :=
            Some [ [ (U "nome", VStr (U "Resumo")); (U "categoria", VStr (U "Geral")) ];
                   [ (U "categoria", VStr (U "Geral")) ] ];
          cat_dicas := None |} |}.

(** Arguments for the type técnico: one value holds a pair of braces, one
    argument is not a field of the template. *)
Definition kwargs_técnico : list (str * str) :=
  [ (U "área", U "IA"); (U "contexto", U "Tutorial."); (U "extra", U "sobra");
    (U "conceito", U "o campo {contexto}"); (U "nível_detalhe", U "exemplos") ].

(** A generator that always draws its largest number. *)
Definition maior (n : nat) : nat := Nat.pred n.

(** ** Strings *)

Lemma str_eqb_eq (a b : str) : str_eqb a b = true <-> a = b.
Proof.
  unfold str_eqb. destruct (list_eq_dec N.eq_dec a b); split; congruence.
Qed.

Lemma str_eqb_neq (a b : str) : str_eqb a b = false <-> a <> b.
Proof.
  unfold str_eqb. destruct (list_eq_dec N.eq_dec a b); split; congruence.
Qed.

Lemma str_eqb_refl (a : str) : str_eqb a a = true.
Proof. now apply str_eqb_eq. Qed.

Lemma starts_with_app (p s : str) : starts_with p (p ++ s) = true.
Proof.
  induction p as [|a p IH]; simpl; [reflexivity|].
  now rewrite N.eqb_refl, IH.
Qed.

Lemma contains_skip (p a s : str) : contains p s = true -> contains p (a ++ s) = true.
Proof.
  intros H. induction a as [|c a IH]; simpl; [exact H|].
  rewrite IH. apply orb_true_r.
Qed.

Lemma contains_middle (p a b : str) : contains p (a ++ p ++ b) = true.
Proof.
  apply contains_skip. destruct p as [|c p]; [destruct b; reflexivity|].
  change (contains (c :: p) ((c :: p) ++ b)) with
    (starts_with (c :: p) ((c :: p) ++ b) || contains (c :: p) (p ++ b)).
  now rewrite starts_with_app.
Qed.

Lemma contains_end (p a : str) : contains p (a ++ p) = true.
Proof.
  pose proof (contains_middle p a []) as H.
  now rewrite app_nil_r in H.
Qed.

(** ** Unknown levels and types *)

Lemma get_not_in {V : Type} (k : str) (d : list (str * V)) :
  ~ In k (map fst d) -> get k d = None.
Proof.
  induction d as [|[k' v] d IH]; simpl; intros H; [reflexivity|].
  destruct (str_eqb k' k) eqn:E.
  - apply str_eqb_eq in E. tauto.
  - apply IH. tauto.
Qed.

(** C6.  A level outside básico, detalhado, avançado yields the invalid-level
    message that lists exactly these three names, and a type outside the
    template table yields the invalid-type message that lists the five type
    names; both calls return. *)
Theorem unknown_level_and_type_report_options :
  (forall (nível : str) (c : Campos),
      ~ In nível [básico; detalhado; avançado] ->
      gerar_prompt_estruturado nível c
      = Ok (U "Nível inválido. Níveis disponíveis: básico, detalhado, avançado"))
  /\
  (forall (tipo : str) (kwargs : list (str * str)),
      ~ In tipo (map fst templates) ->
      gerar_prompt_básico tipo kwargs
      = Ok (U "Tipo inválido. Tipos disponíveis: criativo, técnico, análise, instrução, pesquisa")).
Proof.
  split.
  - intros nível c H. unfold gerar_prompt_estruturado.
    rewrite (get_not_in nível estrutura_prompt) by exact H.
    vm_compute. reflexivity.
  - intros tipo kwargs H. unfold gerar_prompt_básico.
    rewrite (get_not_in tipo templates) by exact H.
    vm_compute. reflexivity.
Qed.

Lemma unknown_level_and_type_witness :
  gerar_prompt_estruturado (U "extremo")
    {| instrução := U "x"; contexto := []; objetivo := []; formato := [];
       restrições := []; exemplos := [] |}
  = Ok (U "Nível inválido. Níveis disponíveis: básico, detalhado, avançado")
  /\
  gerar_prompt_básico (U "poético") [(U "tema", U "mar")]
  = Ok (U "Tipo inválido. Tipos disponíveis: criativo, técnico, análise, instrução, pesquisa").
Proof.
  split.
  - apply (proj1 unknown_level_and_type_report_options).
    vm_compute. intuition discriminate.
  - apply (proj2 unknown_level_and_type_report_options).
    vm_compute. intuition discriminate.
Defined.

(** ** The invalid-template sentinel *)

(** C9.  A template argument that is [None], an empty dictionary, or a
    dictionary without the key 'template' gives the sentinel text, whatever
    the value mapping. *)
Theorem preencher_template_invalid_sentinel :
  forall (template : option dict) (valores : list (str * str)),
    (template = None \/ template = Some [] \/
     exists d, template = Some d /\ get (U "template") d = None) ->
    preencher_template template valores = Ok (U "Template inválido.").
Proof.
  intros template valores [-> | [-> | (d & -> & H)]]; try reflexivity.
  unfold preencher_template, has_key. rewrite H.
  rewrite orb_true_r. reflexivity.
Qed.

Lemma preencher_template_invalid_witness :
  preencher_template None [(U "a", U "b")] = Ok (U "Template inválido.")
  /\ preencher_template (Some []) [] = Ok (U "Template inválido.")
  /\ preencher_template (Some [(U "nome", VStr (U "resumo"))]) [(U "a", U "b")]
     = Ok (U "Template inválido.").
Proof.
  split; [|split]; apply preencher_template_invalid_sentinel.
  - left. reflexivity.
  - right. left. reflexivity.
  - right. right. eexists. split; [reflexivity | vm_compute; reflexivity].
Defined.

(** ** Routing by word count *)

Lemma otimizar_prompt_short (p : str) :
  length (split p) < 10 -> otimizar_prompt p = _expandir_prompt p.
Proof.
  intros H. unfold otimizar_prompt.
  destruct (Nat.ltb_spec (length (split p)) 10); [reflexivity | lia].
Qed.

Lemma otimizar_prompt_medium (p : str) :
  10 <= length (split p) < 30 -> otimizar_prompt p = _estruturar_prompt p.
Proof.
  intros H. unfold otimizar_prompt.
  destruct (Nat.ltb_spec (length (split p)) 10); [lia|].
  destruct (Nat.ltb_spec (length (split p)) 30); [reflexivity | lia].
Qed.

Lemma otimizar_prompt_long (p : str) :
  30 <= length (split p) -> otimizar_prompt p = _refinar_prompt p.
Proof.
  intros H. unfold otimizar_prompt.
  destruct (Nat.ltb_spec (length (split p)) 10); [lia|].
  destruct (Nat.ltb_spec (length (split p)) 30); [lia | reflexivity].
Qed.


(** C4.  The word count of [split] decides the layout, with the boundaries
    at 10 and 30: nine words give the expansion, ten and twenty-nine words
    the structured layout, thirty words the refined layout. *)
Theorem otimizar_prompt_word_count_boundaries :
  forall p : str,
    (length (split p) = 9 -> otimizar_prompt p = _expandir_prompt p)
    /\ (length (split p) = 10 -> otimizar_prompt p = _estruturar_prompt p)
    /\ (length (split p) = 29 -> otimizar_prompt p = _estruturar_prompt p)
    /\ (length (split p) = 30 -> otimizar_prompt p = _refinar_prompt p)
    /\ (length (split p) < 10 -> otimizar_prompt p = _expandir_prompt p)
    /\ (10 <= length (split p) < 30 -> otimizar_prompt p = _estruturar_prompt p)
    /\ (30 <= length (split p) -> otimizar_prompt p = _refinar_prompt p).
Proof.
  intros p. repeat apply conj; intros H.
  - apply otimizar_prompt_short; lia.
  - apply otimizar_prompt_medium; lia.
  - apply otimizar_prompt_medium; lia.
  - apply otimizar_prompt_long; lia.
  - now apply otimizar_prompt_short.
  - now apply otimizar_prompt_medium.
  - now apply otimizar_prompt_long.
Qed.

Lemma otimizar_prompt_word_count_witness :
  otimizar_prompt (U "um dois três quatro cinco seis sete oito nove")
  = _expandir_prompt (U "um dois três quatro cinco seis sete oito nove")
  /\ otimizar_prompt (texto_de 10) = _estruturar_prompt (texto_de 10)
  /\ otimizar_prompt (texto_de 29) = _estruturar_prompt (texto_de 29)
  /\ otimizar_prompt (texto_de 30) = _refinar_prompt (texto_de 30).
Proof.
  split; [|split; [|split]].
  - apply (proj1 (otimizar_prompt_word_count_boundaries _)).
    vm_compute. reflexivity.
  - apply (proj1 (proj2 (otimizar_prompt_word_count_boundaries _))).
    vm_compute. reflexivity.
  - apply (proj1 (proj2 (proj2 (otimizar_prompt_word_count_boundaries _)))).
    vm_compute. reflexivity.
  - apply (proj1 (proj2 (proj2 (proj2 (otimizar_prompt_word_count_boundaries _))))).
    vm_compute. reflexivity.
Defined.

(** ** The input survives in every layout *)

(** C10.  Whatever the branch, the output of [otimizar_prompt] contains the
    input as a contiguous substring: the short layout starts with it, the
    medium layout has it right under the INSTRUÇÃO heading, the long layout
    ends with it right under the PROMPT ORIGINAL heading. *)
Theorem otimizar_prompt_keeps_input :
  forall p : str,
    contains p (otimizar_prompt p) = true
    /\ (length (split p) < 10 ->
        exists sufixo, otimizar_prompt p = p ++ sufixo)
    /\ (10 <= length (split p) < 30 ->
        exists sufixo, otimizar_prompt p = U "# INSTRUÇÃO" ++ [nl] ++ p ++ sufixo)
    /\ (30 <= length (split p) ->
        exists prefixo, otimizar_prompt p = prefixo ++ U "# PROMPT ORIGINAL" ++ [nl] ++ p).
Proof.
  intros p.
  assert (Hs : length (split p) < 10 ->
               exists sufixo, otimizar_prompt p = p ++ sufixo).
  { intros H. rewrite (otimizar_prompt_short p H). now eexists. }
  assert (Hm : 10 <= length (split p) < 30 ->
               exists sufixo, otimizar_prompt p = U "# INSTRUÇÃO" ++ [nl] ++ p ++ sufixo).
  { intros H. rewrite (otimizar_prompt_medium p H). now eexists. }
  assert (Hl : 30 <= length (split p) ->
               exists prefixo, otimizar_prompt p = prefixo ++ U "# PROMPT ORIGINAL" ++ [nl] ++ p).
  { intros H. rewrite (otimizar_prompt_long p H). unfold _refinar_prompt. cbv zeta.
    eexists. rewrite !app_assoc. reflexivity. }
  split; [|auto].
  destruct (Nat.lt_ge_cases (length (split p)) 10) as [H|H].
  - destruct (Hs H) as [x ->]. apply (contains_middle p [] x).
  - destruct (Nat.lt_ge_cases (length (split p)) 30) as [H'|H'].
    + destruct (Hm (conj H H')) as [x ->].
      apply (contains_middle p (U "# INSTRUÇÃO" ++ [nl]) x).
    + destruct (Hl H') as [x ->].
      replace (x ++ U "# PROMPT ORIGINAL" ++ [nl] ++ p)
        with ((x ++ U "# PROMPT ORIGINAL" ++ [nl]) ++ p)
        by (rewrite <- !app_assoc; reflexivity).
      apply contains_end.
Qed.

Lemma otimizar_prompt_keeps_input_witness :
  (exists sufixo, otimizar_prompt (U "Me dê ideias.") = U "Me dê ideias." ++ sufixo)
  /\ (exists sufixo,
         otimizar_prompt (texto_de 10) = U "# INSTRUÇÃO" ++ [nl] ++ texto_de 10 ++ sufixo)
  /\ (exists prefixo,
         otimizar_prompt (texto_de 30) = prefixo ++ U "# PROMPT ORIGINAL" ++ [nl] ++ texto_de 30).
Proof.
  split; [|split].
  - apply (proj1 (proj2 (otimizar_prompt_keeps_input _))). vm_compute. lia.
  - apply (proj1 (proj2 (proj2 (otimizar_prompt_keeps_input _)))). vm_compute. lia.
  - apply (proj2 (proj2 (proj2 (otimizar_prompt_keeps_input _)))). vm_compute. lia.
Defined.

(** ** Defaults of the structured prompt *)

Lemma preencher_padrões_básico (c : Campos) : preencher_padrões básico c = c.
Proof.
  destruct c as [i c o f r e]. unfold preencher_padrões. cbn [contexto objetivo formato restrições exemplos instrução].
  rewrite str_eqb_refl.
  replace (str_eqb básico avançado) with false by (vm_compute; reflexivity).
  cbn [negb]. rewrite !andb_false_r. reflexivity.
Qed.

Lemma preencher_padrões_não_básico (nível : str) (c : Campos) :
  nível <> básico ->
  contexto (preencher_padrões nível c) = ou_padrão (contexto c) padrão_contexto
  /\ objetivo (preencher_padrões nível c) = ou_padrão (objetivo c) padrão_objetivo
  /\ formato (preencher_padrões nível c) = ou_padrão (formato c) padrão_formato.
Proof.
  intros H. apply str_eqb_neq in H. unfold preencher_padrões, ou_padrão.
  cbn [contexto objetivo formato]. rewrite H. cbn [negb].
  rewrite !andb_true_r. auto.
Qed.

Lemma preencher_padrões_avançado (c : Campos) :
  restrições (preencher_padrões avançado c) = ou_padrão (restrições c) padrão_restrições
  /\ exemplos (preencher_padrões avançado c) = ou_padrão (exemplos c) padrão_exemplos.
Proof.
  unfold preencher_padrões, ou_padrão. cbn [restrições exemplos].
  rewrite str_eqb_refl, !andb_true_r. auto.
Qed.

Lemma preencher_padrões_não_avançado (nível : str) (c : Campos) :
  nível <> avançado ->
  restrições (preencher_padrões nível c) = restrições c
  /\ exemplos (preencher_padrões nível c) = exemplos c.
Proof.
  intros H. apply str_eqb_neq in H. unfold preencher_padrões.
  cbn [restrições exemplos]. rewrite H, !andb_false_r. auto.
Qed.

Lemma preencher_padrões_instrução (nível : str) (c : Campos) :
  instrução (preencher_padrões nível c) = instrução c.
Proof. reflexivity. Qed.

(** The formatted text ends with the last field, that is with [campo ++ []]. *)
Ltac por_campos c último :=
  rewrite <- (app_nil_r último);
  destruct c as [? [|? ?] [|? ?] [|? ?] [|? ?] [|? ?]];
  vm_compute; reflexivity.

(** C5.  At the level básico no field is defaulted and the output is the
    instruction alone.  At every other level an empty contexto, objetivo or
    formato is replaced by its canned sentence; restrições and exemplos are
    defaulted at avançado and left as supplied at every other level.  The
    outputs of detalhado and avançado show the fields after defaulting. *)
Theorem gerar_prompt_estruturado_defaults :
  forall c : Campos,
    (preencher_padrões básico c = c
     /\ gerar_prompt_estruturado básico c = Ok (instrução c))
    /\ (forall nível : str, nível <> básico ->
          contexto (preencher_padrões nível c) = ou_padrão (contexto c) padrão_contexto
          /\ objetivo (preencher_padrões nível c) = ou_padrão (objetivo c) padrão_objetivo
          /\ formato (preencher_padrões nível c) = ou_padrão (formato c) padrão_formato)
    /\ (restrições (preencher_padrões avançado c)
        = ou_padrão (restrições c) padrão_restrições
        /\ exemplos (preencher_padrões avançado c)
           = ou_padrão (exemplos c) padrão_exemplos)
    /\ (forall nível : str, nível <> avançado ->
          restrições (preencher_padrões nível c) = restrições c
          /\ exemplos (preencher_padrões nível c) = exemplos c)
    /\ gerar_prompt_estruturado detalhado c
       = Ok (instrução c ++ [nl; nl]
             ++ U "Contexto: " ++ ou_padrão (contexto c) padrão_contexto ++ [nl]
             ++ U "Objetivo: " ++ ou_padrão (objetivo c) padrão_objetivo ++ [nl]
             ++ U "Formato desejado: " ++ ou_padrão (formato c) padrão_formato)
    /\ gerar_prompt_estruturado avançado c
       = Ok (U "# TAREFA" ++ [nl] ++ instrução c ++ [nl; nl]
             ++ U "# CONTEXTO" ++ [nl]
             ++ ou_padrão (contexto c) padrão_contexto ++ [nl; nl]
             ++ U "# OBJETIVO" ++ [nl]
             ++ ou_padrão (objetivo c) padrão_objetivo ++ [nl; nl]
             ++ U "# FORMATO" ++ [nl]
             ++ ou_padrão (formato c) padrão_formato ++ [nl; nl]
             ++ U "# RESTRIÇÕES" ++ [nl]
             ++ ou_padrão (restrições c) padrão_restrições ++ [nl; nl]
             ++ U "# EXEMPLOS" ++ [nl]
             ++ ou_padrão (exemplos c) padrão_exemplos).
Proof.
  intros c. repeat apply conj.
  - apply preencher_padrões_básico.
  - por_campos c (instrução c).
  - intros nível H. apply preencher_padrões_não_básico; exact H.
  - apply preencher_padrões_avançado.
  - apply preencher_padrões_avançado.
  - intros nível H. apply preencher_padrões_não_avançado; exact H.
  - por_campos c (ou_padrão (formato c) padrão_formato).
  - por_campos c (ou_padrão (exemplos c) padrão_exemplos).
Qed.

Lemma gerar_prompt_estruturado_defaults_witness :
  (contexto (preencher_padrões detalhado campos_só_instrução)
   = ou_padrão (contexto campos_só_instrução) padrão_contexto
   /\ objetivo (preencher_padrões detalhado campos_só_instrução)
      = ou_padrão (objetivo campos_só_instrução) padrão_objetivo
   /\ formato (preencher_padrões detalhado campos_só_instrução)
      = ou_padrão (formato campos_só_instrução) padrão_formato)
  /\ (restrições (preencher_padrões detalhado campos_só_instrução)
      = restrições campos_só_instrução
      /\ exemplos (preencher_padrões detalhado campos_só_instrução)
         = exemplos campos_só_instrução).
Proof.
  split.
  - refine (proj1 (proj2 (gerar_prompt_estruturado_defaults campos_só_instrução))
              detalhado _).
    vm_compute. discriminate.
  - refine (proj1 (proj2 (proj2 (proj2 (gerar_prompt_estruturado_defaults
                                          campos_só_instrução)))) detalhado _).
    vm_compute. discriminate.
Defined.

(** ** Catalog lookups *)

Section CaseInsensitive.

Variable lower : str -> str.

Lemma item_texto_tem_texto (k : str) (t : dict) :
  tem_texto k t -> exists s, get k t = Some (VStr s) /\ item_texto k t = Ok s.
Proof.
  intros [s H]. exists s. split; [exact H|]. unfold item_texto. now rewrite H.
Qed.

Lemma procurar_nome_none (nome : str) (ts : list dict) :
  Forall (tem_texto (U "nome")) ts ->
  (forall t n, In t ts -> get (U "nome") t = Some (VStr n) -> lower n <> lower nome) ->
  procurar_nome lower nome ts = Ok None.
Proof.
  induction ts as [|t ts IH]; intros Hwf Hno; [reflexivity|].
  inversion Hwf as [|? ? Ht Hts]; subst.
  destruct (item_texto_tem_texto _ _ Ht) as (n & Hn & Hitem).
  cbn [procurar_nome]. rewrite Hitem. cbn [bind].
  assert (E : str_eqb (lower n) (lower nome) = false).
  { apply str_eqb_neq. apply (Hno t n); [now left | exact Hn]. }
  rewrite E. apply IH; [exact Hts|].
  intros t' n' Hin. apply Hno. now right.
Qed.

Lemma procurar_nome_first (nome : str) (antes : list dict) (t : dict) (n : str)
      (depois : list dict) :
  Forall (tem_texto (U "nome")) antes ->
  (forall t' n', In t' antes -> get (U "nome") t' = Some (VStr n') ->
                 lower n' <> lower nome) ->
  get (U "nome") t = Some (VStr n) ->
  lower n = lower nome ->
  procurar_nome lower nome (antes ++ t :: depois) = Ok (Some t).
Proof.
  induction antes as [|a antes IH]; intros Hwf Hno Hn Heq.
  - cbn [app procurar_nome]. unfold item_texto. rewrite Hn. cbn [bind].
    rewrite Heq, str_eqb_refl. reflexivity.
  - inversion Hwf as [|? ? Ha Hrest]; subst.
    destruct (item_texto_tem_texto _ _ Ha) as (na & Hna & Hitem).
    cbn [app procurar_nome]. rewrite Hitem. cbn [bind].
    assert (E : str_eqb (lower na) (lower nome) = false).
    { apply str_eqb_neq. apply (Hno a na); [now left | exact Hna]. }
    rewrite E. apply IH; auto.
    intros t' n' Hin. apply Hno. now right.
Qed.

(** C7.  An integer key is a zero-based position: inside the range it gives
    the template at that position, outside it (negative keys included) the
    result is [None].  A text key is compared with the names through
    [lower]: the first template whose name agrees is returned, and [None]
    when no name agrees.  No case raises on a catalog whose templates carry
    a name. *)
Theorem obter_template_lookup :
  forall self : TemplateLoader.TemplateLoader,
    (forall i : Z,
        (i < 0 \/ Z.of_nat (length (lista_templates self)) <= i)%Z ->
        obter_template lower self (Índice i) = Ok None)
    /\ (forall i : Z,
          (0 <= i < Z.of_nat (length (lista_templates self)))%Z ->
          exists t, nth_error (lista_templates self) (Z.to_nat i) = Some t
                    /\ obter_template lower self (Índice i) = Ok (Some t))
    /\ (forall nome : str,
          Forall (tem_texto (U "nome")) (lista_templates self) ->
          (forall t n, In t (lista_templates self) ->
                       get (U "nome") t = Some (VStr n) -> lower n <> lower nome) ->
          obter_template lower self (Nome nome) = Ok None)
    /\ (forall (nome : str) (antes : list dict) (t : dict) (n : str)
               (depois : list dict),
          lista_templates self = antes ++ t :: depois ->
          Forall (tem_texto (U "nome")) antes ->
          (forall t' n', In t' antes -> get (U "nome") t' = Some (VStr n') ->
                         lower n' <> lower nome) ->
          get (U "nome") t = Some (VStr n) ->
          lower n = lower nome ->
          obter_template lower self (Nome nome) = Ok (Some t)).
Proof.
  intros self. repeat apply conj.
  - intros i H. unfold obter_template.
    destruct (Z.leb_spec 0 i); destruct (Z.ltb_spec i (Z.of_nat (length (lista_templates self))));
      cbn [andb]; try reflexivity; lia.
  - intros i H. unfold obter_template.
    destruct (Z.leb_spec 0 i); [|lia].
    destruct (Z.ltb_spec i (Z.of_nat (length (lista_templates self)))); [|lia].
    cbn [andb].
    destruct (nth_error (lista_templates self) (Z.to_nat i)) as [t|] eqn:E.
    + exists t. auto.
    + apply nth_error_None in E. lia.
  - intros nome Hwf Hno. unfold obter_template. now apply procurar_nome_none.
  - intros nome antes t n depois Hts Hwf Hno Hn Heq. unfold obter_template.
    rewrite Hts. now apply procurar_nome_first with (n := n).
Qed.

Lemma casa_categoria_texto (categoria : str) (t : dict) (c : str) :
  get (U "categoria") t = Some (VStr c) ->
  casa_categoria lower categoria t = str_eqb (lower c) (lower categoria).
Proof. intros H. unfold casa_categoria. now rewrite H. Qed.

Lemma filtrar_categoria_filter (categoria : str) (ts : list dict) :
  Forall (tem_texto (U "categoria")) ts ->
  filtrar_categoria lower categoria ts
  = Ok (filter (casa_categoria lower categoria) ts).
Proof.
  induction ts as [|t ts IH]; intros Hwf; [reflexivity|].
  inversion Hwf as [|? ? Ht Hts]; subst.
  destruct (item_texto_tem_texto _ _ Ht) as (c & Hc & Hitem).
  cbn [filtrar_categoria filter]. rewrite Hitem, (IH Hts). cbn [bind].
  rewrite (casa_categoria_texto categoria t c Hc). reflexivity.
Qed.

Lemma filtrar_categoria_lower (c1 c2 : str) (ts : list dict) :
  lower c1 = lower c2 ->
  filtrar_categoria lower c1 ts = filtrar_categoria lower c2 ts.
Proof.
  intros H. induction ts as [|t ts IH]; [reflexivity|].
  cbn [filtrar_categoria]. now rewrite IH, H.
Qed.

(** C8.  Two categories with the same lower-case form, that is two
    categories that differ only in letter case, get the same answer; on a
    catalog whose templates carry a category the answer is the sub-list of
    the templates whose category agrees through [lower], hence the empty
    list when none agrees. *)
Theorem obter_template_por_categoria_case_insensitive :
  forall (self : TemplateLoader.TemplateLoader) (c1 c2 : str),
    (lower c1 = lower c2 ->
     obter_template_por_categoria lower self c1
     = obter_template_por_categoria lower self c2)
    /\ (Forall (tem_texto (U "categoria")) (lista_templates self) ->
        obter_template_por_categoria lower self c1
        = Ok (filter (casa_categoria lower c1) (lista_templates self)))
    /\ (Forall (tem_texto (U "categoria")) (lista_templates self) ->
        (forall t c, In t (lista_templates self) ->
                     get (U "categoria") t = Some (VStr c) -> lower c <> lower c1) ->
        obter_template_por_categoria lower self c1 = Ok []).
Proof.
  intros self c1 c2. repeat apply conj.
  - intros H. unfold obter_template_por_categoria. now apply filtrar_categoria_lower.
  - intros Hwf. unfold obter_template_por_categoria. now apply filtrar_categoria_filter.
  - intros Hwf Hno. unfold obter_template_por_categoria.
    rewrite (filtrar_categoria_filter c1 _ Hwf). f_equal.
    induction (lista_templates self) as [|t ts IH]; [reflexivity|].
    inversion Hwf as [|? ? [c Hc] Hts]; subst.
    cbn [filter]. rewrite (casa_categoria_texto c1 t c Hc).
    replace (str_eqb (lower c) (lower c1)) with false.
    + apply IH; [exact Hts|]. intros t' c' Hin. apply Hno. now right.
    + symmetry. apply str_eqb_neq. apply (Hno t c); [now left | exact Hc].
Qed.

End CaseInsensitive.

Ltac cada_template Hin :=
  vm_compute in Hin;
  repeat (destruct Hin as [<- | Hin]); [.. | destruct Hin].

Ltac todos_com_texto :=
  repeat (apply Forall_cons; [eexists; vm_compute; reflexivity|]); apply Forall_nil.

Lemma obter_template_lookup_witness :
  obter_template lower_latin1 catálogo_exemplo (Índice (-1)) = Ok None
  /\ obter_template lower_latin1 catálogo_exemplo (Índice 2) = Ok None
  /\ (exists t, nth_error (lista_templates catálogo_exemplo) (Z.to_nat 1) = Some t
                /\ obter_template lower_latin1 catálogo_exemplo (Índice 1) = Ok (Some t))
  /\ obter_template lower_latin1 catálogo_exemplo (Nome (U "Inexistente")) = Ok None
  /\ obter_template lower_latin1 catálogo_exemplo (Nome (U "HISTÓRIA CURTA"))
     = Ok (Some [ (U "nome", VStr (U "História Curta"));
                  (U "categoria", VStr (U "Criativo"));
                  (U "template", VStr (U "Conte {tema} em {tom}")) ]).
Proof.
  pose proof (obter_template_lookup lower_latin1 catálogo_exemplo)
    as (Hfora & Hdentro & Hnenhum & Hprimeiro).
  split; [|split; [|split; [|split]]].
  - apply Hfora. left. lia.
  - apply Hfora. right. vm_compute. discriminate.
  - apply Hdentro. vm_compute. split; [discriminate | reflexivity].
  - apply Hnenhum.
    + todos_com_texto.
    + intros t n Hin Hn. cada_template Hin;
        vm_compute in Hn; injection Hn as <-; vm_compute; discriminate.
  - apply (Hprimeiro (U "HISTÓRIA CURTA")
             [ [ (U "nome", VStr (U "Explicação Técnica"));
                 (U "categoria", VStr (U "Técnico"));
                 (U "template", VStr (U "Explique {conceito} com {nível}")) ] ]
             _ (U "História Curta") []).
    + vm_compute. reflexivity.
    + todos_com_texto.
    + intros t n Hin Hn. cada_template Hin;
        vm_compute in Hn; injection Hn as <-; vm_compute; discriminate.
    + vm_compute. reflexivity.
    + vm_compute. reflexivity.
Defined.

Lemma obter_template_por_categoria_witness :
  obter_template_por_categoria lower_latin1 catálogo_exemplo (U "Técnico")
  = obter_template_por_categoria lower_latin1 catálogo_exemplo (U "técnico")
  /\ obter_template_por_categoria lower_latin1 catálogo_exemplo (U "TÉCNICO")
     = Ok (filter (casa_categoria lower_latin1 (U "TÉCNICO"))
             (lista_templates catálogo_exemplo))
  /\ obter_template_por_categoria lower_latin1 catálogo_exemplo (U "poesia") = Ok [].
Proof.
  split; [|split].
  - apply (proj1 (obter_template_por_categoria_case_insensitive
                    lower_latin1 catálogo_exemplo (U "Técnico") (U "técnico"))).
    vm_compute. reflexivity.
  - apply (proj1 (proj2 (obter_template_por_categoria_case_insensitive
                           lower_latin1 catálogo_exemplo (U "TÉCNICO") [])) ).
    todos_com_texto.
  - apply (proj2 (proj2 (obter_template_por_categoria_case_insensitive
                           lower_latin1 catálogo_exemplo (U "poesia") []))).
    + todos_com_texto.
    + intros t c Hin Hc. cada_template Hin;
        vm_compute in Hc; injection Hc as <-; vm_compute; discriminate.
Defined.

(** ** Placeholders and substitution *)

(** *** The scanners do not depend on spare fuel *)

Lemma break_at_Some (stop : char) (s before after : str) :
  break_at stop s = Some (before, after) ->
  s = before ++ stop :: after /\ ~ In stop before.
Proof.
  revert before after. induction s as [|c s IH]; intros before after H; [discriminate|].
  cbn [break_at] in H. destruct (N.eqb_spec c stop) as [->|Hc].
  - injection H as <- <-. split; [reflexivity | intros []].
  - destruct (break_at stop s) as [[b a]|]; [|discriminate].
    injection H as <- <-. destruct (IH b a eq_refl) as [-> Hn].
    split; [reflexivity|]. intros [E|E]; [congruence | tauto].
Qed.

Lemma break_at_None (stop : char) (s : str) :
  break_at stop s = None <-> ~ In stop s.
Proof.
  induction s as [|c s IH]; cbn [break_at].
  - split; [intros _ [] | reflexivity].
  - destruct (N.eqb_spec c stop) as [->|Hc].
    + split; [discriminate | intros H; exfalso; apply H; now left].
    + destruct (break_at stop s) as [[b a]|].
      * split; [discriminate|]. intros H. exfalso.
        assert (H' : ~ In stop s) by (intros E; apply H; now right).
        apply IH in H'. discriminate.
      * split; [|reflexivity]. intros _ [E|E]; [congruence|].
        now apply (proj1 IH eq_refl).
Qed.

Lemma break_at_length (stop : char) (s before after : str) :
  break_at stop s = Some (before, after) -> length after < length s.
Proof.
  intros H. apply break_at_Some in H as [-> _].
  rewrite length_app. cbn [length]. lia.
Qed.

Lemma findall_fuel_spare (f1 f2 : nat) (s : str) :
  length s <= f1 -> length s <= f2 -> findall_fuel f1 s = findall_fuel f2 s.
Proof.
  revert f2 s. induction f1 as [|f1 IH]; intros f2 s H1 H2.
  - destruct s; [|cbn [length] in H1; lia]. now destruct f2.
  - destruct f2 as [|f2]; [destruct s; [reflexivity | cbn [length] in H2; lia]|].
    destruct s as [|c rest]; [reflexivity|]. cbn [length] in H1, H2.
    cbn [findall_fuel].
    destruct (c =? lbrace)%N; [|apply IH; lia].
    destruct (break_at rbrace rest) as [[name after]|] eqn:E; [|apply IH; lia].
    apply break_at_length in E.
    destruct (is_empty name); [apply IH; lia|].
    f_equal. apply IH; lia.
Qed.

Lemma findall_placeholders_cons (c : char) (rest : str) :
  findall_placeholders (c :: rest)
  = if (c =? lbrace)%N then
      match break_at rbrace rest with
      | Some (name, after) =>
          if is_empty name then findall_placeholders rest
          else name :: findall_placeholders after
      | None => findall_placeholders rest
      end
    else findall_placeholders rest.
Proof.
  unfold findall_placeholders. cbn [length findall_fuel].
  destruct (c =? lbrace)%N; [|reflexivity].
  destruct (break_at rbrace rest) as [[name after]|] eqn:E; [|reflexivity].
  apply break_at_length in E.
  destruct (is_empty name); [reflexivity|].
  f_equal. apply findall_fuel_spare; lia.
Qed.

Lemma replace_fuel_spare (old new : str) (f1 f2 : nat) (s : str) :
  old <> [] -> length s < f1 -> length s < f2 ->
  replace_fuel f1 old new s = replace_fuel f2 old new s.
Proof.
  intros Hold. revert f2 s. induction f1 as [|f1 IH]; intros f2 s H1 H2; [lia|].
  destruct f2 as [|f2]; [lia|].
  destruct old as [|o old']; [congruence|].
  cbn [replace_fuel]. destruct s as [|c s']; [reflexivity|].
  cbn [length] in H1, H2.
  destruct (starts_with (o :: old') (c :: s')).
  - f_equal. apply IH.
    + cbn [length skipn]. pose proof (length_skipn (length old') s'). lia.
    + cbn [length skipn]. pose proof (length_skipn (length old') s'). lia.
  - f_equal. apply IH; lia.
Qed.

Lemma replace_nil (o : char) (old new : str) : replace (o :: old) new [] = [].
Proof. reflexivity. Qed.

Lemma replace_fuel_S (f : nat) (o : char) (old new : str) (c : char) (s : str) :
  replace_fuel (S f) (o :: old) new (c :: s)
  = if starts_with (o :: old) (c :: s)
    then new ++ replace_fuel f (o :: old) new (skipn (length (o :: old)) (c :: s))
    else c :: replace_fuel f (o :: old) new s.
Proof. reflexivity. Qed.

Lemma replace_cons (o : char) (old new : str) (c : char) (s : str) :
  replace (o :: old) new (c :: s)
  = if starts_with (o :: old) (c :: s)
    then new ++ replace (o :: old) new (skipn (length (o :: old)) (c :: s))
    else c :: replace (o :: old) new s.
Proof.
  unfold replace. change (length (c :: s)) with (S (length s)).
  rewrite replace_fuel_S.
  destruct (starts_with (o :: old) (c :: s)); [|reflexivity].
  f_equal. apply replace_fuel_spare; [discriminate| |].
  - cbn [skipn length]. pose proof (length_skipn (length old) s). lia.
  - lia.
Qed.

(** *** Texts in which every opening brace is accounted for *)

Lemma render_cons_chr (c : char) (its : list item) :
  render (Chr c :: its) = c :: render its.
Proof. reflexivity. Qed.

Lemma render_cons_tok (n : str) (its : list item) :
  render (Tok n :: its) = lbrace :: n ++ rbrace :: render its.
Proof.
  unfold render. cbn [flat_map render_item]. cbn [app]. f_equal.
  now rewrite <- app_assoc.
Qed.

Lemma render_app (a b : list item) : render (a ++ b) = render a ++ render b.
Proof. unfold render. apply flat_map_app. Qed.

Lemma render_map_chr (v : str) : render (map Chr v) = v.
Proof.
  induction v as [|c v IH]; [reflexivity|].
  cbn [map]. rewrite render_cons_chr. now f_equal.
Qed.

Lemma tok_names_cons_chr (c : char) (its : list item) :
  tok_names (Chr c :: its) = tok_names its.
Proof. reflexivity. Qed.

Lemma tok_names_cons_tok (n : str) (its : list item) :
  tok_names (Tok n :: its) = n :: tok_names its.
Proof. reflexivity. Qed.

Lemma tokenize_fuel_spec (fuel : nat) (s : str) :
  length s <= fuel ->
  render (tokenize_fuel fuel s) = s
  /\ tok_names (tokenize_fuel fuel s) = findall_fuel fuel s
  /\ inert (tokenize_fuel fuel s).
Proof.
  revert s. induction fuel as [|fuel IH]; intros s Hlen.
  - destruct s; [|cbn [length] in Hlen; lia]. cbn. auto.
  - destruct s as [|c rest]; [cbn; auto|].
    cbn [length] in Hlen. cbn [tokenize_fuel findall_fuel].
    destruct (N.eqb_spec c lbrace) as [->|Hc].
    + destruct (break_at rbrace rest) as [[name after]|] eqn:E.
      * pose proof (break_at_length _ _ _ _ E) as Hl.
        apply break_at_Some in E as [-> _].
        destruct name as [|n0 name]; cbn [is_empty].
        -- destruct (IH (rbrace :: after)) as (Hr & Ht & Hi); [cbn [app] in *; lia|].
           cbn [app] in *. rewrite render_cons_chr, Hr.
           repeat split; [exact Ht | | exact Hi].
           intros _. left. destruct fuel as [|fuel']; [cbn [length] in Hlen; lia|].
           cbn [tokenize_fuel]. replace (rbrace =? lbrace)%N with false by reflexivity.
           now eexists.
        -- destruct (IH after) as (Hr & Ht & Hi); [lia|].
           rewrite render_cons_tok, Hr, tok_names_cons_tok, Ht.
           cbn [inert]. auto.
      * destruct (IH rest) as (Hr & Ht & Hi); [lia|].
        rewrite render_cons_chr, Hr. repeat split; [exact Ht | | exact Hi].
        intros _. right. rewrite Hr. now apply break_at_None.
    + destruct (IH rest) as (Hr & Ht & Hi); [lia|].
      rewrite render_cons_chr, Hr. repeat split; [exact Ht | | exact Hi].
      intros E. congruence.
Qed.

Lemma tokenize_spec (s : str) :
  render (tokenize s) = s
  /\ tok_names (tokenize s) = findall_placeholders s
  /\ inert (tokenize s).
Proof. apply tokenize_fuel_spec. reflexivity. Qed.

(** *** One [replace] on such a text *)

Lemma starts_with_true (p s : str) :
  starts_with p s = true -> exists s', s = p ++ s'.
Proof.
  revert s. induction p as [|a p IH]; intros s H; [now exists s|].
  destruct s as [|b s]; [discriminate|]. cbn [starts_with] in H.
  apply andb_true_iff in H as [Hab Hp]. apply N.eqb_eq in Hab as ->.
  destruct (IH s Hp) as [s' ->]. now exists s'.
Qed.

Lemma starts_with_token (k n R : str) :
  ~ In rbrace k -> ~ In rbrace n ->
  starts_with (k ++ [rbrace]) (n ++ rbrace :: R) = str_eqb n k.
Proof.
  revert n. induction k as [|k0 k IH]; intros n Hk Hn.
  - destruct n as [|n0 n].
    + cbn [app starts_with]. now rewrite N.eqb_refl, str_eqb_refl.
    + cbn [app starts_with].
      destruct (N.eqb_spec rbrace n0) as [E|E].
      * exfalso. apply Hn. now left.
      * cbn [andb]. symmetry. now apply str_eqb_neq.
  - destruct n as [|n0 n].
    + cbn [app starts_with].
      destruct (N.eqb_spec k0 rbrace) as [E|E].
      * exfalso. apply Hk. now left.
      * cbn [andb]. symmetry. now apply str_eqb_neq.
    + cbn [app starts_with]. rewrite IH.
      * destruct (N.eqb_spec k0 n0) as [->|E]; cbn [andb].
        -- destruct (str_eqb n k) eqn:Enk.
           ++ apply str_eqb_eq in Enk as ->. symmetry. apply str_eqb_refl.
           ++ symmetry. apply str_eqb_neq. apply str_eqb_neq in Enk. congruence.
        -- symmetry. apply str_eqb_neq. congruence.
      * intros E. apply Hk. now right.
      * intros E. apply Hn. now right.
Qed.

Lemma skipn_length_app (p R : str) : skipn (length p) (p ++ R) = R.
Proof. induction p as [|a p IH]; [reflexivity | exact IH]. Qed.

Lemma replace_skip_prefix (o : char) (old new w s : str) :
  ~ In o w ->
  replace (o :: old) new (w ++ s) = w ++ replace (o :: old) new s.
Proof.
  induction w as [|c w IH]; intros Hw; [reflexivity|].
  cbn [app]. rewrite replace_cons. cbn [starts_with].
  destruct (N.eqb_spec o c) as [E|E].
  - exfalso. apply Hw. now left.
  - cbn [andb]. f_equal. apply IH. intros H. apply Hw. now right.
Qed.

Lemma replace_absent (old new s : str) :
  old <> [] -> contains old s = false -> replace old new s = s.
Proof.
  intros Hold. destruct old as [|o old]; [congruence|].
  induction s as [|c s IH]; intros H; [reflexivity|].
  cbn [contains] in H. apply orb_false_iff in H as [H1 H2].
  rewrite replace_cons, H1. f_equal. now apply IH.
Qed.

(** The loop body is a plain [replace]: the test before it changes nothing. *)
Lemma substituir_replace (texto chave valor : str) :
  substituir texto (chave, valor)
  = replace (lbrace :: chave ++ [rbrace]) valor texto.
Proof.
  unfold substituir.
  destruct (contains (lbrace :: chave ++ [rbrace]) texto) eqn:E; [reflexivity|].
  symmetry. apply replace_absent; [discriminate | exact E].
Qed.

Lemma subst_with_no_rbrace (f : str -> option str) (its : list item) :
  ~ In rbrace (render its) -> subst_with f its = its.
Proof.
  induction its as [|[c|n] its IH]; intros H; [reflexivity| |].
  - rewrite render_cons_chr in H. unfold subst_with in *. cbn [flat_map app].
    f_equal. apply IH. intros E. apply H. now right.
  - exfalso. apply H. rewrite render_cons_tok. right.
    apply in_or_app. right. now left.
Qed.

Lemma subst_with_cons_chr (f : str -> option str) (c : char) (its : list item) :
  subst_with f (Chr c :: its) = Chr c :: subst_with f its.
Proof. reflexivity. Qed.

Lemma subst_with_cons_tok (f : str -> option str) (n : str) (its : list item) :
  subst_with f (Tok n :: its)
  = match f n with
    | Some v => map Chr v ++ subst_with f its
    | None => Tok n :: subst_with f its
    end.
Proof. unfold subst_with. cbn [flat_map]. now destruct (f n). Qed.

Lemma replace_render (k v : str) (its : list item) :
  k <> [] -> sem_chaves k ->
  inert its ->
  Forall sem_chaves (tok_names its) ->
  replace (lbrace :: k ++ [rbrace]) v (render its)
  = render (subst_with (único k v) its).
Proof.
  intros Hne [Hkl Hkr]. induction its as [|[c|n] its IH]; intros Hin Hnames.
  - reflexivity.
  - cbn [inert] in Hin. destruct Hin as [Hc Hin].
    rewrite subst_with_cons_chr, !render_cons_chr, replace_cons.
    replace (starts_with (lbrace :: k ++ [rbrace]) (c :: render its)) with false.
    + f_equal. apply IH; assumption.
    + symmetry. cbn [starts_with].
      destruct (N.eqb_spec lbrace c) as [<-|E]; [|reflexivity]. cbn [andb].
      destruct k as [|k0 k]; [congruence|].
      destruct (Hc eq_refl) as [[r ->]|Hno].
      * rewrite render_cons_chr. cbn [app starts_with].
        destruct (N.eqb_spec k0 rbrace) as [E|E]; [|reflexivity].
        exfalso. apply Hkr. now left.
      * destruct (starts_with ((k0 :: k) ++ [rbrace]) (render its)) eqn:Es;
          [|reflexivity].
        exfalso. apply starts_with_true in Es as [s' Es]. apply Hno.
        rewrite Es. apply in_or_app. left. apply in_or_app. right. now left.
  - cbn [inert] in Hin. rewrite tok_names_cons_tok in Hnames.
    inversion Hnames as [|? ? [Hnl Hnr] Hrest]; subst.
    rewrite subst_with_cons_tok, render_cons_tok, replace_cons.
    cbn [starts_with]. rewrite N.eqb_refl. cbn [andb].
    rewrite (starts_with_token k n (render its) Hkr Hnr). unfold único at 1.
    destruct (str_eqb n k) eqn:Enk.
    + apply str_eqb_eq in Enk as ->.
      rewrite render_app, render_map_chr. f_equal.
      replace (lbrace :: k ++ rbrace :: render its)
        with ((lbrace :: k ++ [rbrace]) ++ render its)
        by (cbn [app]; now rewrite <- app_assoc).
      rewrite skipn_length_app. now apply IH.
    + rewrite render_cons_tok. f_equal.
      replace (n ++ rbrace :: render its) with ((n ++ [rbrace]) ++ render its)
        by (now rewrite <- app_assoc).
      rewrite replace_skip_prefix.
      * rewrite <- app_assoc. cbn [app]. do 2 f_equal. now apply IH.
      * intros E. apply in_app_or in E as [E|[E|[]]]; [tauto | discriminate].
Qed.

(** *** The whole loop *)

Lemma str_eqb_sym (a b : str) : str_eqb a b = str_eqb b a.
Proof.
  destruct (str_eqb b a) eqn:E.
  - apply str_eqb_eq in E as ->. apply str_eqb_refl.
  - apply str_eqb_neq. apply str_eqb_neq in E. congruence.
Qed.

Lemma subst_with_app_chr (f : str -> option str) (v : str) (its : list item) :
  subst_with f (map Chr v ++ its) = map Chr v ++ subst_with f its.
Proof.
  induction v as [|c v IH]; [reflexivity|].
  cbn [map app]. rewrite subst_with_cons_chr. now f_equal.
Qed.

Lemma subst_with_ext (f g : str -> option str) (its : list item) :
  (forall n, f n = g n) -> subst_with f its = subst_with g its.
Proof.
  intros H. induction its as [|[c|n] its IH]; [reflexivity| |].
  - rewrite !subst_with_cons_chr. now f_equal.
  - rewrite !subst_with_cons_tok, H, IH. reflexivity.
Qed.

Lemma subst_with_none (its : list item) : subst_with (fun _ => None) its = its.
Proof.
  induction its as [|[c|n] its IH]; [reflexivity| |].
  - rewrite subst_with_cons_chr. now f_equal.
  - rewrite subst_with_cons_tok. now f_equal.
Qed.

Lemma subst_with_compose (f g : str -> option str) (its : list item) :
  subst_with g (subst_with f its)
  = subst_with (fun n => match f n with Some x => Some x | None => g n end) its.
Proof.
  induction its as [|[c|n] its IH]; [reflexivity| |].
  - rewrite !subst_with_cons_chr. now f_equal.
  - rewrite !subst_with_cons_tok. destruct (f n) as [x|].
    + rewrite subst_with_app_chr. now f_equal.
    + rewrite subst_with_cons_tok. now rewrite IH.
Qed.

Lemma inert_app_chr (v : str) (its : list item) :
  ~ In lbrace v -> inert its -> inert (map Chr v ++ its).
Proof.
  induction v as [|c v IH]; intros Hv Hi; [exact Hi|].
  cbn [map app inert]. split.
  - intros ->. exfalso. apply Hv. now left.
  - apply IH; [|exact Hi]. intros E. apply Hv. now right.
Qed.

Lemma inert_subst_with (f : str -> option str) (its : list item) :
  (forall n v, f n = Some v -> ~ In lbrace v) ->
  inert its -> inert (subst_with f its).
Proof.
  intros Hf. induction its as [|[c|n] its IH]; intros Hi; [exact I| |].
  - cbn [inert] in Hi. destruct Hi as [Hc Hi].
    rewrite subst_with_cons_chr. cbn [inert]. split; [|now apply IH].
    intros E. destruct (Hc E) as [[r ->]|Hno].
    + left. rewrite subst_with_cons_chr. now eexists.
    + right. now rewrite subst_with_no_rbrace.
  - cbn [inert] in Hi. rewrite subst_with_cons_tok.
    destruct (f n) as [v|] eqn:E.
    + apply inert_app_chr; [now apply (Hf n) | now apply IH].
    + cbn [inert]. now apply IH.
Qed.

Lemma tok_names_app_chr (v : str) (its : list item) :
  tok_names (map Chr v ++ its) = tok_names its.
Proof. induction v as [|c v IH]; [reflexivity | exact IH]. Qed.

Lemma tok_names_subst_with (P : str -> Prop) (f : str -> option str)
      (its : list item) :
  Forall P (tok_names its) -> Forall P (tok_names (subst_with f its)).
Proof.
  induction its as [|[c|n] its IH]; intros H; [exact H| |].
  - rewrite subst_with_cons_chr, tok_names_cons_chr. now apply IH.
  - rewrite tok_names_cons_tok in H. inversion H; subst.
    rewrite subst_with_cons_tok. destruct (f n).
    + rewrite tok_names_app_chr. now apply IH.
    + rewrite tok_names_cons_tok. constructor; [assumption | now apply IH].
Qed.

Lemma tok_names_subst_all (f : str -> option str) (its : list item) :
  (forall n, In n (tok_names its) -> f n <> None) ->
  tok_names (subst_with f its) = [].
Proof.
  induction its as [|[c|n] its IH]; intros H; [reflexivity| |].
  - rewrite subst_with_cons_chr, tok_names_cons_chr. now apply IH.
  - rewrite tok_names_cons_tok in H. rewrite subst_with_cons_tok.
    destruct (f n) eqn:E.
    + rewrite tok_names_app_chr. apply IH. intros m Hm. apply H. now right.
    + exfalso. apply (H n); [now left | exact E].
Qed.

Lemma get_cons {V : Type} (k : str) (v : V) (d : list (str * V)) (n : str) :
  get n ((k, v) :: d) = if str_eqb k n then Some v else get n d.
Proof. reflexivity. Qed.

(** The loop of [preencher_template] on a text whose braces are accounted
    for: when no value but the last brings in an opening brace, the passes
    amount to one substitution of the tokens. *)
Lemma fold_substituir_render (valores : list (str * str)) (its : list item) :
  Forall (fun e => chave_simples (fst e)) valores ->
  Forall (fun e => ~ In lbrace (snd e)) (removelast valores) ->
  inert its ->
  Forall sem_chaves (tok_names its) ->
  fold_left substituir valores (render its)
  = render (subst_with (fun n => get n valores) its).
Proof.
  revert its. induction valores as [|[k v] V IH]; intros its Hk Hv Hi Hn.
  - cbn [fold_left get]. now rewrite subst_with_none.
  - inversion Hk as [|? ? [Hne Hplain] HkV]; subst. cbn [fst] in *.
    cbn [fold_left]. rewrite substituir_replace.
    rewrite (replace_render k v its Hne Hplain Hi Hn).
    destruct V as [|e V].
    + cbn [fold_left]. f_equal. apply subst_with_ext. intros n.
      rewrite get_cons. unfold único. now rewrite str_eqb_sym.
    + cbn [removelast] in Hv. inversion Hv as [|? ? Hvl HvV]; subst.
      cbn [snd] in Hvl. rewrite IH.
      * f_equal. rewrite subst_with_compose. apply subst_with_ext. intros n.
        rewrite (get_cons k v (e :: V) n). unfold único.
        rewrite (str_eqb_sym n k). now destruct (str_eqb k n).
      * exact HkV.
      * exact HvV.
      * apply inert_subst_with; [|exact Hi]. intros n x. unfold único.
        destruct (str_eqb n k); [|discriminate]. now intros [= <-].
      * now apply tok_names_subst_with.
Qed.

Lemma render_subst_with (valores : list (str * str)) (texto : str) :
  render (subst_with (fun n => get n valores) (tokenize texto))
  = substituir_uma_passagem texto valores.
Proof.
  unfold substituir_uma_passagem.
  induction (tokenize texto) as [|[c|n] its IH]; [reflexivity| |].
  - rewrite subst_with_cons_chr, render_cons_chr. cbn [flat_map app]. now f_equal.
  - rewrite subst_with_cons_tok. cbn [flat_map].
    destruct (get n valores) as [v|].
    + rewrite render_app, render_map_chr. now f_equal.
    + rewrite render_cons_tok. cbn [render_item app].
      rewrite <- app_assoc. cbn [app]. now rewrite IH.
Qed.

(** On a text whose braces are accounted for, the placeholder pattern finds
    the tokens and nothing else. *)
Lemma break_at_app (stop : char) (n R : str) :
  ~ In stop n -> break_at stop (n ++ stop :: R) = Some (n, R).
Proof.
  induction n as [|c n IH]; intros H.
  - cbn [app break_at]. now rewrite N.eqb_refl.
  - cbn [app break_at]. destruct (N.eqb_spec c stop) as [E|E].
    + exfalso. apply H. now left.
    + rewrite IH; [reflexivity|]. intros E'. apply H. now right.
Qed.

Lemma findall_render (its : list item) :
  inert its ->
  Forall (fun n => n <> [] /\ ~ In rbrace n) (tok_names its) ->
  findall_placeholders (render its) = tok_names its.
Proof.
  induction its as [|[c|n] its IH]; intros Hi Hn; [reflexivity| |].
  - cbn [inert] in Hi. destruct Hi as [Hc Hi].
    rewrite render_cons_chr, tok_names_cons_chr, findall_placeholders_cons.
    rewrite tok_names_cons_chr in Hn.
    destruct (N.eqb_spec c lbrace) as [E|E]; [|now apply IH].
    destruct (Hc E) as [[r ->]|Hno].
    + rewrite render_cons_chr. cbn [break_at]. rewrite N.eqb_refl.
      cbn [is_empty]. rewrite <- render_cons_chr. now apply IH.
    + apply break_at_None in Hno. rewrite Hno. now apply IH.
  - cbn [inert] in Hi. rewrite tok_names_cons_tok in *.
    inversion Hn as [|? ? [Hne Hr] Hrest]; subst.
    rewrite render_cons_tok, findall_placeholders_cons, N.eqb_refl.
    rewrite (break_at_app rbrace n (render its) Hr).
    destruct n as [|n0 n]; [congruence|]. cbn [is_empty].
    f_equal. now apply IH.
Qed.

(** *** [preencher_template] on a template that holds a format string *)

Lemma get_Some_In {V : Type} (k : str) (d : list (str * V)) (v : V) :
  get k d = Some v -> In (k, v) d.
Proof.
  induction d as [|[k' v'] d IH]; intros H; [discriminate|].
  rewrite get_cons in H. destruct (str_eqb k' k) eqn:E.
  - apply str_eqb_eq in E as ->. injection H as ->. now left.
  - right. now apply IH.
Qed.

Lemma has_key_true {V : Type} (k : str) (d : list (str * V)) :
  has_key k d = true -> exists v, get k d = Some v.
Proof.
  unfold has_key. destruct (get k d) as [v|]; [now exists v | discriminate].
Qed.

Lemma preencher_template_texto (d : dict) (texto : str) (valores : list (str * str)) :
  get (U "template") d = Some (VStr texto) ->
  preencher_template (Some d) valores
  = if negb (is_nil (faltantes texto valores))
    then Ok (msg_valores_faltantes ++ join TemplateLoader.vírgula (faltantes texto valores))
    else Ok (fold_left substituir valores texto).
Proof.
  intros H. unfold preencher_template, has_key. rewrite H.
  destruct d as [|e d]; [discriminate|]. reflexivity.
Qed.

Lemma faltantes_nil (texto : str) (valores : list (str * str)) :
  (forall p, In p (_extrair_placeholders texto) -> has_key p valores = true) ->
  faltantes texto valores = [].
Proof.
  unfold faltantes, _extrair_placeholders.
  induction (findall_placeholders texto) as [|p l IH]; intros H; [reflexivity|].
  cbn [filter]. rewrite (H p) by now left. cbn [negb].
  apply IH. intros q Hq. apply H. now right.
Qed.

Lemma faltantes_In (texto : str) (valores : list (str * str)) (q : str) :
  In q (faltantes texto valores)
  <-> In q (_extrair_placeholders texto) /\ has_key q valores = false.
Proof.
  unfold faltantes, _extrair_placeholders. rewrite filter_In.
  now rewrite negb_true_iff.
Qed.

Lemma placeholders_simples (texto : str) (valores : list (str * str)) :
  (forall p, In p (_extrair_placeholders texto) -> has_key p valores = true) ->
  Forall (fun e => chave_simples (fst e)) valores ->
  Forall sem_chaves (tok_names (tokenize texto)).
Proof.
  intros Hcov Hk. destruct (tokenize_spec texto) as (_ & -> & _).
  apply Forall_forall. intros n Hn.
  destruct (has_key_true _ _ (Hcov n Hn)) as [v Hv].
  apply get_Some_In in Hv.
  rewrite Forall_forall in Hk. now destruct (Hk _ Hv) as [_ ?].
Qed.

Lemma preencher_template_loop (d : dict) (texto : str) (valores : list (str * str)) :
  get (U "template") d = Some (VStr texto) ->
  (forall p, In p (_extrair_placeholders texto) -> has_key p valores = true) ->
  Forall (fun e => chave_simples (fst e)) valores ->
  Forall (fun e => ~ In lbrace (snd e)) (removelast valores) ->
  preencher_template (Some d) valores
  = Ok (render (subst_with (fun n => get n valores) (tokenize texto))).
Proof.
  intros Hd Hcov Hk Hv.
  rewrite (preencher_template_texto d texto valores Hd).
  rewrite (faltantes_nil texto valores Hcov). cbn [is_nil negb]. f_equal.
  destruct (tokenize_spec texto) as (Hr & _ & Hi).
  rewrite <- Hr at 1.
  apply fold_substituir_render; try assumption.
  now apply placeholders_simples with (valores := valores).
Qed.

(** C2 (amended).  The loop makes one literal [replace] pass per entry, in
    the order of the mapping, so a value is read again only by the passes of
    the entries behind it.  With keys that are plain names and no opening
    brace in any value but the last one, the result is the one-pass
    substitution: nothing put in is replaced again, and a token inside the
    last value stays as it is. *)
Theorem preencher_template_single_pass :
  forall (d : dict) (texto : str) (valores : list (str * str)),
    get (U "template") d = Some (VStr texto) ->
    (forall p, In p (_extrair_placeholders texto) -> has_key p valores = true) ->
    Forall (fun e => chave_simples (fst e)) valores ->
    Forall (fun e => ~ In lbrace (snd e)) (removelast valores) ->
    preencher_template (Some d) valores
    = Ok (substituir_uma_passagem texto valores).
Proof.
  intros d texto valores Hd Hcov Hk Hv.
  rewrite (preencher_template_loop d texto valores Hd Hcov Hk Hv).
  now rewrite render_subst_with.
Qed.

(** C3 (amended).  With a value for every placeholder, keys that are plain
    names and no opening brace in any value, the result is the format string
    with each placeholder replaced by its value, and the placeholder pattern
    finds nothing in it. *)
Theorem preencher_template_fills_every_placeholder :
  forall (d : dict) (texto : str) (valores : list (str * str)),
    get (U "template") d = Some (VStr texto) ->
    (forall p, In p (_extrair_placeholders texto) -> has_key p valores = true) ->
    Forall (fun e => chave_simples (fst e) /\ ~ In lbrace (snd e)) valores ->
    exists preenchido,
      preencher_template (Some d) valores = Ok preenchido
      /\ _extrair_placeholders preenchido = []
      /\ preenchido = substituir_uma_passagem texto valores.
Proof.
  intros d texto valores Hd Hcov Hkv.
  assert (Hk : Forall (fun e : str * str => chave_simples (fst e)) valores).
  { apply Forall_forall. intros e He. rewrite Forall_forall in Hkv.
    now destruct (Hkv e He). }
  assert (Hv : forall n v, get n valores = Some v -> ~ In lbrace v).
  { intros n v H. apply get_Some_In in H. rewrite Forall_forall in Hkv.
    now destruct (Hkv _ H). }
  assert (Hl : Forall (fun e : str * str => ~ In lbrace (snd e)) (removelast valores)).
  { apply Forall_forall. intros [k v] He. cbn [snd].
    assert (Hin : In (k, v) valores).
    { clear - He. induction valores as [|a l IH]; [destruct He|].
      destruct l as [|b l]; [destruct He|].
      cbn [removelast] in He. destruct He as [->|He]; [now left|].
      right. now apply IH. }
    rewrite Forall_forall in Hkv. now destruct (Hkv _ Hin). }
  exists (render (subst_with (fun n => get n valores) (tokenize texto))).
  split; [now apply preencher_template_loop|]. split; [|apply render_subst_with].
  destruct (tokenize_spec texto) as (_ & Hnames & Hi).
  unfold _extrair_placeholders. rewrite findall_render.
  - apply tok_names_subst_all. intros n Hn. rewrite Hnames in Hn.
    destruct (has_key_true _ _ (Hcov n Hn)) as [v ->]. discriminate.
  - now apply inert_subst_with.
  - rewrite tok_names_subst_all; [constructor|].
    intros n Hn. rewrite Hnames in Hn.
    destruct (has_key_true _ _ (Hcov n Hn)) as [v ->]. discriminate.
Qed.

(** *** Missing values *)

Lemma faltantes_count (texto : str) (valores : list (str * str)) (q : str) :
  has_key q valores = false ->
  count_occ str_dec (faltantes texto valores) q
  = count_occ str_dec (_extrair_placeholders texto) q.
Proof.
  intros Hq. unfold faltantes, _extrair_placeholders.
  induction (findall_placeholders texto) as [|p l IH]; [reflexivity|].
  cbn [filter]. destruct (has_key p valores) eqn:Hp; cbn [negb].
  - rewrite IH. symmetry. apply count_occ_cons_neq. congruence.
  - destruct (str_dec p q) as [->|E].
    + rewrite !count_occ_cons_eq by reflexivity. now rewrite IH.
    + rewrite !count_occ_cons_neq by exact E. exact IH.
Qed.

(** With a field of the template unbound, [format] raises [KeyError]. *)
Ltac campo_faltante kw p Hin Hp :=
  let Ep := fresh "Ep" in
  unfold has_key in Hp;
  destruct (get p kw) eqn:Ep; [discriminate Hp|];
  vm_compute in Hin; cbv -[get app];
  repeat (match goal with
          | |- context [@get ?V ?f kw] => destruct (@get V f kw) eqn:?
          end; cbv beta iota);
  try (eexists; reflexivity);
  exfalso;
  repeat (destruct Hin as [Hin | Hin];
          [subst p;
           match goal with
           | E : get _ kw = Some _ |- _ => discriminate (eq_trans (eq_sym Ep) E)
           end|]);
  exact Hin.

Lemma format_campo_faltante (tipo template : str) (kwargs : list (str * str)) (p : str) :
  In (tipo, template) templates ->
  In p (findall_placeholders template) ->
  has_key p kwargs = false ->
  exists k, format template kwargs = Raise (KeyError k).
Proof.
  intros Ht Hin Hp. vm_compute in Ht.
  destruct Ht as [Ht | [Ht | [Ht | [Ht | [Ht | []]]]]];
    injection Ht as <- <-; campo_faltante kwargs p Hin Hp.
Qed.

(** C1 (amended).  When the mapping leaves a placeholder of the template
    unbound, [preencher_template] returns the missing-values message: the
    unbound placeholders in order of occurrence, each as often as it occurs
    in the template.  [gerar_prompt_básico], for a type of its table and
    keyword arguments that leave a field unbound, returns the
    missing-parameters message, which names every unbound field.  Neither
    raises and neither returns a partly filled text. *)
Theorem missing_values_are_reported :
  (forall (d : dict) (texto : str) (valores : list (str * str)) (p : str),
      get (U "template") d = Some (VStr texto) ->
      In p (_extrair_placeholders texto) ->
      has_key p valores = false ->
      preencher_template (Some d) valores
      = Ok (U "Valores faltantes: " ++ join (U ", ") (faltantes texto valores))
      /\ (forall q, In q (faltantes texto valores)
                    <-> In q (_extrair_placeholders texto)
                        /\ has_key q valores = false)
      /\ (forall q, has_key q valores = false ->
                    count_occ str_dec (faltantes texto valores) q
                    = count_occ str_dec (_extrair_placeholders texto) q))
  /\
  (forall (tipo template : str) (kwargs : list (str * str)) (p : str),
      get tipo templates = Some template ->
      In p (findall_placeholders template) ->
      has_key p kwargs = false ->
      exists nomes,
        gerar_prompt_básico tipo kwargs
        = Ok (U "Parâmetros faltantes: " ++ join (U ", ") nomes)
        /\ (forall q, In q (findall_placeholders template) ->
                      has_key q kwargs = false -> In q nomes)).
Proof.
  split.
  - intros d texto valores p Hd Hin Hp. split; [|split].
    + rewrite (preencher_template_texto d texto valores Hd).
      destruct (faltantes texto valores) as [|f fs] eqn:E; [|reflexivity].
      exfalso. assert (H : In p (faltantes texto valores))
        by (apply faltantes_In; auto).
      rewrite E in H. destruct H.
    + intros q. apply faltantes_In.
    + intros q. apply faltantes_count.
  - intros tipo template kwargs p Ht Hin Hp.
    exists (findall_placeholders template). split; [|auto].
    unfold gerar_prompt_básico. rewrite Ht.
    destruct (format_campo_faltante tipo template kwargs p
                (get_Some_In _ _ _ Ht) Hin Hp) as [k ->].
    reflexivity.
Qed.

(** *** Worked inputs *)

Ltac sem_o_caractere :=
  let H := fresh in
  vm_compute; intros H;
  repeat (destruct H as [H|H]; [discriminate H|]); exact H.

Ltac é_chave_simples :=
  split; [discriminate | split; sem_o_caractere].

Ltac cobre Hin :=
  vm_compute in Hin;
  repeat (destruct Hin as [<- | Hin]; [vm_compute; reflexivity|]);
  destruct Hin.

Lemma missing_values_witness :
  preencher_template (Some d_explique) [(U "conceito", U "recursão")]
  = Ok (U "Valores faltantes: "
          ++ join (U ", ") (faltantes explique [(U "conceito", U "recursão")]))
  /\ exists nomes,
      gerar_prompt_básico (U "técnico") [(U "área", U "IA")]
      = Ok (U "Parâmetros faltantes: " ++ join (U ", ") nomes)
      /\ (forall q,
             In q (findall_placeholders template_técnico) ->
             has_key q [(U "área", U "IA")] = false -> In q nomes).
Proof.
  split.
  - refine (proj1 (proj1 missing_values_are_reported d_explique explique
                     [(U "conceito", U "recursão")] (U "nível") _ _ _)).
    + vm_compute. reflexivity.
    + vm_compute. right. left. reflexivity.
    + vm_compute. reflexivity.
  - refine (proj2 missing_values_are_reported (U "técnico") template_técnico
              [(U "área", U "IA")] (U "contexto") _ _ _).
    + vm_compute. reflexivity.
    + vm_compute. right. left. reflexivity.
    + vm_compute. reflexivity.
Defined.

(** C1, as stated, fails.  A placeholder that occurs twice is reported
    twice, where the claim has each missing name once; and
    [gerar_prompt_básico] names the bound field persona among the missing
    ones. *)
Lemma missing_names_counterexample :
  (In (U "tema") (_extrair_placeholders (U "{tema}: fale de {tema}"))
   /\ has_key (U "tema") (@nil (str * str)) = false)
  /\ preencher_template (template_com (U "{tema}: fale de {tema}")) []
     = Ok (U "Valores faltantes: tema, tema")
  /\ sem_repetição [] (faltantes (U "{tema}: fale de {tema}") []) = [U "tema"]
  /\ preencher_template (template_com (U "{tema}: fale de {tema}")) []
     <> Ok (U "Valores faltantes: "
              ++ join (U ", ")
                   (sem_repetição [] (faltantes (U "{tema}: fale de {tema}") [])))
  /\ has_key (U "persona") [(U "persona", U "um poeta")] = true
  /\ gerar_prompt_básico (U "criativo") [(U "persona", U "um poeta")]
     = Ok (U "Parâmetros faltantes: persona, contexto, output_type, tema, estilo").
Proof.
  split; [split|split; [|split; [|split; [|split]]]].
  - vm_compute. left. reflexivity.
  - reflexivity.
  - vm_compute. reflexivity.
  - vm_compute. reflexivity.
  - intros H. vm_compute in H. discriminate H.
  - vm_compute. reflexivity.
  - vm_compute. reflexivity.
Qed.

Lemma single_pass_witness :
  preencher_template (Some d_explique)
    [(U "conceito", U "recursão"); (U "nível", U "exemplos {simples}")]
  = Ok (substituir_uma_passagem explique
          [(U "conceito", U "recursão"); (U "nível", U "exemplos {simples}")]).
Proof.
  apply preencher_template_single_pass.
  - vm_compute. reflexivity.
  - intros p Hin. cobre Hin.
  - repeat (apply Forall_cons; [é_chave_simples|]). apply Forall_nil.
  - cbn [removelast]. apply Forall_cons; [sem_o_caractere | apply Forall_nil].
Defined.

(** C2, as stated, fails.  The mapping binds the only placeholder of the
    template; the value of [a] holds the token of [b], and the pass of [b],
    which comes later, replaces it: the result is X, not the one-pass
    substitution. *)
Lemma rescanned_value_counterexample :
  (forall p, In p (_extrair_placeholders (U "{a}")) ->
             has_key p [(U "a", U "{b}"); (U "b", U "X")] = true)
  /\ preencher_template (template_com (U "{a}")) [(U "a", U "{b}"); (U "b", U "X")]
     = Ok (U "X")
  /\ substituir_uma_passagem (U "{a}") [(U "a", U "{b}"); (U "b", U "X")] = U "{b}"
  /\ preencher_template (template_com (U "{a}")) [(U "a", U "{b}"); (U "b", U "X")]
     <> Ok (substituir_uma_passagem (U "{a}") [(U "a", U "{b}"); (U "b", U "X")]).
Proof.
  split; [|split; [|split]].
  - intros p Hin. cobre Hin.
  - vm_compute. reflexivity.
  - vm_compute. reflexivity.
  - intros H. vm_compute in H. discriminate H.
Qed.

Lemma fills_every_placeholder_witness :
  exists preenchido,
    preencher_template (Some d_explique)
      [(U "conceito", U "recursão"); (U "nível", U "exemplos simples")]
    = Ok preenchido
    /\ _extrair_placeholders preenchido = []
    /\ preenchido
       = substituir_uma_passagem explique
           [(U "conceito", U "recursão"); (U "nível", U "exemplos simples")].
Proof.
  apply preencher_template_fills_every_placeholder.
  - vm_compute. reflexivity.
  - intros p Hin. cobre Hin.
  - repeat (apply Forall_cons; [split; [é_chave_simples | sem_o_caractere]|]).
    apply Forall_nil.
Defined.

(** C3, as stated, fails.  Every placeholder is bound, and the result still
    holds a token: the one that came in with the value. *)
Lemma leftover_token_counterexample :
  (forall p, In p (_extrair_placeholders (U "Fale de {tema}")) ->
             has_key p [(U "tema", U "{outro}")] = true)
  /\ preencher_template (template_com (U "Fale de {tema}")) [(U "tema", U "{outro}")]
     = Ok (U "Fale de {outro}")
  /\ _extrair_placeholders (U "Fale de {outro}") = [U "outro"].
Proof.
  split; [|split].
  - intros p Hin. cobre Hin.
  - vm_compute. reflexivity.
  - vm_compute. reflexivity.
Qed.

(** The conditions on the keys cannot be dropped either: a key with braces
    can span two placeholders, and the empty key turns the two characters
    of an empty pair of braces, which is no placeholder, into a pattern. *)
Lemma plain_keys_are_needed :
  preencher_template (template_com (U "{a}{b}"))
    [(U "a}{b", U "Z"); (U "a", U "1"); (U "b", U "2")] = Ok (U "Z")
  /\ substituir_uma_passagem (U "{a}{b}")
       [(U "a}{b", U "Z"); (U "a", U "1"); (U "b", U "2")] = U "12"
  /\ preencher_template (template_com (U "{}{a}")) [(U "", U "y"); (U "a", U "x")]
     = Ok (U "yx")
  /\ substituir_uma_passagem (U "{}{a}") [(U "", U "y"); (U "a", U "x")] = U "{}x".
Proof.
  split; [|split; [|split]]; vm_compute; reflexivity.
Qed.

(** The two end-to-end examples of the specification. *)
Example explique_recursão :
  preencher_template (Some d_explique)
    [(U "conceito", U "recursão"); (U "nível", U "exemplos simples")]
  = Ok (U "Explique recursão com exemplos simples").
Proof. vm_compute. reflexivity. Qed.

Example me_dê_ideias :
  otimizar_prompt (U "Me dê ideias.") = U "Me dê ideias." ++ sufixo_expansão.
Proof. vm_compute. reflexivity. Qed.

(** * Further properties *)

(** ** The catalog after a failed load *)

Lemma obter_template_fora (lower : str -> str) (self : TemplateLoader.TemplateLoader)
      (i : Z) :
  (i < 0 \/ Z.of_nat (length (lista_templates self)) <= i)%Z ->
  obter_template lower self (Índice i) = Ok None.
Proof.
  intros H. unfold obter_template.
  destruct (Z.leb_spec 0 i);
    destruct (Z.ltb_spec i (Z.of_nat (length (lista_templates self))));
    cbn [andb]; try reflexivity; lia.
Qed.



(** ** The listing and the lookups *)

Lemma obter_template_dentro (lower : str -> str) (self : TemplateLoader.TemplateLoader)
      (i : nat) (t : dict) :
  nth_error (lista_templates self) i = Some t ->
  obter_template lower self (Índice (Z.of_nat i)) = Ok (Some t).
Proof.
  intros H. unfold obter_template.
  assert (Hi : i < length (lista_templates self))
    by (apply nth_error_Some; congruence).
  destruct (Z.leb_spec 0 (Z.of_nat i)); [|lia].
  destruct (Z.ltb_spec (Z.of_nat i) (Z.of_nat (length (lista_templates self)))); [|lia].
  cbn [andb]. rewrite Nat2Z.id, H. reflexivity.
Qed.

Lemma getitem_tem_chave (k : str) (t : dict) :
  tem_chave k t -> exists v, get k t = Some v /\ getitem k t = Ok v.
Proof.
  intros [v H]. exists v. split; [exact H|]. unfold getitem. now rewrite H.
Qed.

Lemma listar_ok (ts : list dict) :
  Forall (fun t => tem_chave (U "nome") t /\ tem_chave (U "categoria") t) ts ->
  exists l,
    listar ts = Ok l
    /\ length l = length ts
    /\ (forall i t, nth_error ts i = Some t ->
                    exists n c, get (U "nome") t = Some n
                                /\ get (U "categoria") t = Some c
                                /\ nth_error l i = Some (n, c)).
Proof.
  induction ts as [|t ts IH]; intros Hwf.
  - exists []. repeat split. intros [|i] t H; discriminate H.
  - inversion Hwf as [|? ? [Hn Hc] Hts]; subst.
    destruct (IH Hts) as (l & Hl & Hlen & Hnth).
    destruct (getitem_tem_chave _ _ Hn) as (n & Hgn & Hin).
    destruct (getitem_tem_chave _ _ Hc) as (c & Hgc & Hic).
    exists ((n, c) :: l). cbn [listar]. rewrite Hin, Hic, Hl. cbn [bind].
    split; [reflexivity|]. split; [cbn [length]; now rewrite Hlen|].
    intros [|i] t' H.
    + injection H as <-. exists n, c. auto.
    + apply (Hnth i t' H).
Qed.

(** X2.  On a catalog whose templates carry a name and a category, the listing
    has one pair per template, in the order of the catalog: the pair at a
    position is the name and the category of the template that the lookup by
    that position returns. *)
Theorem listing_follows_positions :
  forall (lower : str -> str) (self : TemplateLoader.TemplateLoader),
    Forall (fun t => tem_chave (U "nome") t /\ tem_chave (U "categoria") t)
      (lista_templates self) ->
    exists l,
      listar_templates self = Ok l
      /\ length l = length (lista_templates self)
      /\ (forall i t,
             nth_error (lista_templates self) i = Some t ->
             obter_template lower self (Índice (Z.of_nat i)) = Ok (Some t)
             /\ exists n c, get (U "nome") t = Some n
                            /\ get (U "categoria") t = Some c
                            /\ nth_error l i = Some (n, c)).
Proof.
  intros lower self Hwf. destruct (listar_ok _ Hwf) as (l & Hl & Hlen & Hnth).
  exists l. split; [exact Hl|]. split; [exact Hlen|].
  intros i t H. split; [now apply obter_template_dentro | now apply Hnth].
Qed.

Ltac todos_com_chaves :=
  repeat (apply Forall_cons;
          [split; eexists; vm_compute; reflexivity|]);
  apply Forall_nil.

Lemma listing_follows_positions_witness :
  exists l,
    listar_templates catálogo_exemplo = Ok l
    /\ length l = length (lista_templates catálogo_exemplo)
    /\ (forall i t,
           nth_error (lista_templates catálogo_exemplo) i = Some t ->
           obter_template lower_latin1 catálogo_exemplo (Índice (Z.of_nat i))
           = Ok (Some t)
           /\ exists n c, get (U "nome") t = Some n
                          /\ get (U "categoria") t = Some c
                          /\ nth_error l i = Some (n, c)).
Proof.
  refine (listing_follows_positions lower_latin1 catálogo_exemplo _).
  todos_com_chaves.
Defined.

Lemma listar_falha (antes : list dict) (t : dict) (depois : list dict) :
  Forall (fun t => tem_chave (U "nome") t /\ tem_chave (U "categoria") t) antes ->
  (get (U "nome") t = None ->
   listar (antes ++ t :: depois) = Raise (KeyError (U "nome")))
  /\ (tem_chave (U "nome") t -> get (U "categoria") t = None ->
      listar (antes ++ t :: depois) = Raise (KeyError (U "categoria"))).
Proof.
  induction antes as [|a antes IH]; intros Hwf.
  - cbn [app listar]. split.
    + intros H. unfold getitem at 1. rewrite H. reflexivity.
    + intros Hn Hc. destruct (getitem_tem_chave _ _ Hn) as (n & _ & ->).
      cbn [bind]. unfold getitem at 1. rewrite Hc. reflexivity.
  - inversion Hwf as [|? ? [Hn Hc] Hrest]; subst.
    destruct (getitem_tem_chave _ _ Hn) as (n & _ & Hin).
    destruct (getitem_tem_chave _ _ Hc) as (c & _ & Hic).
    destruct (IH Hrest) as [IH1 IH2].
    cbn [app listar]. rewrite Hin, Hic. cbn [bind]. split.
    + intros H. now rewrite (IH1 H).
    + intros H1 H2. now rewrite (IH2 H1 H2).
Qed.

(** X3.  One template without a name, or with a name and without a category, is
    enough for the whole listing to raise [KeyError] on that key: the
    templates in front of it are not listed. *)
Theorem listing_fails_as_a_whole :
  forall (self : TemplateLoader.TemplateLoader) (antes : list dict) (t : dict)
         (depois : list dict),
    lista_templates self = antes ++ t :: depois ->
    Forall (fun t => tem_chave (U "nome") t /\ tem_chave (U "categoria") t) antes ->
    (get (U "nome") t = None ->
     listar_templates self = Raise (KeyError (U "nome")))
    /\ (tem_chave (U "nome") t -> get (U "categoria") t = None ->
        listar_templates self = Raise (KeyError (U "categoria"))).
Proof.
  intros self antes t depois Hts Hwf. unfold listar_templates. rewrite Hts.
  now apply listar_falha.
Qed.

Lemma listing_fails_witness :
  listar_templates catálogo_incompleto = Raise (KeyError (U "nome")).
Proof.
  refine (proj1 (listing_fails_as_a_whole catálogo_incompleto
                   [ [ (U "nome", VStr (U "Resumo")); (U "categoria", VStr (U "Geral")) ] ]
                   [ (U "categoria", VStr (U "Geral")) ] [] _ _) _).
  - vm_compute. reflexivity.
  - todos_com_chaves.
  - vm_compute. reflexivity.
Defined.



(** X5.  On a catalog whose templates carry a category, the lookup by category
    returns exactly the templates of the catalog whose category agrees, case
    apart, and as many at most as the catalog holds; in particular every
    template is found under its own category. *)
Theorem category_lookup_is_exact :
  forall (lower : str -> str) (self : TemplateLoader.TemplateLoader) (categoria : str),
    Forall (tem_texto (U "categoria")) (lista_templates self) ->
    exists l,
      obter_template_por_categoria lower self categoria = Ok l
      /\ length l <= length (lista_templates self)
      /\ (forall t, In t l <->
                    In t (lista_templates self)
                    /\ exists c, get (U "categoria") t = Some (VStr c)
                                 /\ lower c = lower categoria)
      /\ (forall t, In t (lista_templates self) ->
                    get (U "categoria") t = Some (VStr categoria) -> In t l).
Proof.
  intros lower self categoria Hwf.
  exists (filter (casa_categoria lower categoria) (lista_templates self)).
  split; [unfold obter_template_por_categoria; now apply filtrar_categoria_filter|].
  split; [apply filter_length_le|].
  assert (Hiff : forall t,
             In t (filter (casa_categoria lower categoria) (lista_templates self))
             <-> In t (lista_templates self)
                 /\ exists c, get (U "categoria") t = Some (VStr c)
                              /\ lower c = lower categoria).
  { intros t. rewrite filter_In. split.
    - intros [Hin Hc]. split; [exact Hin|].
      rewrite Forall_forall in Hwf. destruct (Hwf t Hin) as [c Hg].
      exists c. split; [exact Hg|].
      rewrite (casa_categoria_texto lower categoria t c Hg) in Hc.
      now apply str_eqb_eq.
    - intros [Hin (c & Hg & Hc)]. split; [exact Hin|].
      rewrite (casa_categoria_texto lower categoria t c Hg).
      now apply str_eqb_eq. }
  split; [exact Hiff|].
  intros t Hin Hg. apply Hiff. split; [exact Hin|]. now exists categoria.
Qed.

Lemma category_lookup_witness :
  exists l,
    obter_template_por_categoria lower_latin1 catálogo_exemplo (U "CRIATIVO") = Ok l
    /\ length l <= length (lista_templates catálogo_exemplo)
    /\ (forall t, In t l <->
                  In t (lista_templates catálogo_exemplo)
                  /\ exists c, get (U "categoria") t = Some (VStr c)
                               /\ lower_latin1 c = lower_latin1 (U "CRIATIVO"))
    /\ (forall t, In t (lista_templates catálogo_exemplo) ->
                  get (U "categoria") t = Some (VStr (U "CRIATIVO")) -> In t l).
Proof.
  refine (category_lookup_is_exact lower_latin1 catálogo_exemplo (U "CRIATIVO") _).
  todos_com_texto.
Defined.

(** ** Random picks *)

Lemma choice_member (A : Type) (randbelow : nat -> nat) (seq : list A) :
  gerador_válido randbelow -> seq <> [] ->
  exists x, PyRandom.choice randbelow seq = Ok x /\ In x seq.
Proof.
  intros Hg Hne. unfold PyRandom.choice.
  assert (Hlen : 0 < length seq) by (destruct seq; [congruence | cbn; lia]).
  destruct (nth_error seq (randbelow (length seq))) as [x|] eqn:E.
  - exists x. split; [reflexivity|]. now apply nth_error_In in E.
  - apply nth_error_None in E. specialize (Hg _ Hlen). lia.
Qed.

(** X6.  With tips in the catalog, the tip returned is one of them, whatever the
    generator draws; without tips, or without the key, the answer is the
    fixed sentence.  The call never raises. *)
Theorem random_tip_is_a_tip :
  forall (self : TemplateLoader.TemplateLoader) (randbelow : nat -> nat),
    gerador_válido randbelow ->
    (lista_dicas self <> [] ->
     exists dica, obter_dica_aleatória self randbelow = Ok dica
                  /\ In dica (lista_dicas self))
    /\ (lista_dicas self = [] ->
        obter_dica_aleatória self randbelow = Ok (U "Não há dicas disponíveis.")).
Proof.
  intros self randbelow Hg. unfold obter_dica_aleatória, lista_dicas. split.
  - intros Hne.
    destruct (cat_dicas (TemplateLoader.templates self)) as [[|d ds]|];
      try congruence.
    cbn [is_nil negb]. now apply choice_member.
  - intros ->. reflexivity.
Qed.

Lemma gerador_maior : gerador_válido maior.
Proof. intros n Hn. unfold maior. lia. Qed.

Lemma random_tip_witness :
  (exists dica, obter_dica_aleatória catálogo_exemplo maior = Ok dica
                /\ In dica (lista_dicas catálogo_exemplo))
  /\ obter_dica_aleatória catálogo_incompleto maior
     = Ok (U "Não há dicas disponíveis.").
Proof.
  split.
  - refine (proj1 (random_tip_is_a_tip catálogo_exemplo maior gerador_maior) _).
    vm_compute. discriminate.
  - refine (proj2 (random_tip_is_a_tip catálogo_incompleto maior gerador_maior) _).
    reflexivity.
Defined.

(** X7.  The persona suggested is one of the nine of the class, whatever the
    generator draws, and the call never raises. *)
Theorem suggested_persona_is_an_option :
  forall randbelow : nat -> nat,
    gerador_válido randbelow ->
    exists persona, sugerir_persona randbelow = Ok persona
                    /\ In persona persona_options.
Proof.
  intros randbelow Hg. unfold sugerir_persona.
  apply choice_member; [exact Hg | discriminate].
Qed.

Lemma suggested_persona_witness :
  exists persona, sugerir_persona maior = Ok persona /\ In persona persona_options.
Proof. exact (suggested_persona_is_an_option maior gerador_maior). Defined.

(** ** Filling what a lookup returned *)

(** X8.  Handing the result of a lookup that found nothing to
    [preencher_template] gives the invalid-template sentence: a position
    outside the catalog, or a name that no template carries, never makes the
    pair of calls raise. *)
Theorem filling_a_missing_template :
  forall (lower : str -> str) (self : TemplateLoader.TemplateLoader)
         (valores : list (str * str)),
    (forall i : Z,
        (i < 0 \/ Z.of_nat (length (lista_templates self)) <= i)%Z ->
        obter_e_preencher lower self (Índice i) valores = Ok (U "Template inválido."))
    /\ (forall nome : str,
          Forall (tem_texto (U "nome")) (lista_templates self) ->
          (forall t n, In t (lista_templates self) ->
                       get (U "nome") t = Some (VStr n) -> lower n <> lower nome) ->
          obter_e_preencher lower self (Nome nome) valores = Ok (U "Template inválido.")).
Proof.
  intros lower self valores. split.
  - intros i H. unfold obter_e_preencher.
    now rewrite (obter_template_fora lower self i H).
  - intros nome Hwf Hno. unfold obter_e_preencher, obter_template.
    now rewrite (procurar_nome_none lower nome _ Hwf Hno).
Qed.

Lemma filling_a_missing_template_witness :
  obter_e_preencher lower_latin1 catálogo_exemplo (Índice 7) [(U "tema", U "mar")]
  = Ok (U "Template inválido.")
  /\ obter_e_preencher lower_latin1 catálogo_exemplo (Nome (U "Soneto"))
       [(U "tema", U "mar")]
     = Ok (U "Template inválido.").
Proof.
  split.
  - refine (proj1 (filling_a_missing_template lower_latin1 catálogo_exemplo
                     [(U "tema", U "mar")]) 7%Z _).
    right. vm_compute. discriminate.
  - refine (proj2 (filling_a_missing_template lower_latin1 catálogo_exemplo
                     [(U "tema", U "mar")]) (U "Soneto") _ _).
    + todos_com_texto.
    + intros t n Hin Hn. cada_template Hin;
        vm_compute in Hn; injection Hn as <-; vm_compute; discriminate.
Defined.

(** ** Words *)

Lemma split_words_app_space (a : str) (w : char) (b cur : str) :
  isspace w = true ->
  split_words cur (a ++ w :: b) = split_words cur a ++ split b.
Proof.
  intros Hw. revert cur. induction a as [|c a IH]; intros cur.
  - cbn [app split_words]. rewrite Hw. now destruct (is_empty cur).
  - cbn [app split_words]. destruct (isspace c).
    + destruct (is_empty cur); cbn [app]; now rewrite IH.
    + apply IH.
Qed.

Lemma palavras_app_space (a : str) (w : char) (b : str) :
  isspace w = true -> palavras (a ++ w :: b) = palavras a + palavras b.
Proof.
  intros Hw. unfold palavras, split.
  rewrite (split_words_app_space a w b [] Hw). apply length_app.
Qed.

Lemma split_words_no_space (w rest cur : str) :
  Forall (fun c => isspace c = false) w ->
  split_words cur (w ++ rest) = split_words (cur ++ w) rest.
Proof.
  intros Hw. revert cur. induction Hw as [|c w Hc Hw IH]; intros cur.
  - now rewrite app_nil_r.
  - cbn [app split_words]. rewrite Hc, IH. now rewrite <- app_assoc.
Qed.

Lemma split_join_words (ws : list str) :
  Forall palavra ws -> split (join [32%N] ws) = ws.
Proof.
  induction ws as [|w ws IH]; intros H; [reflexivity|].
  inversion H as [|? ? [Hne Hw] Hws]; subst.
  destruct ws as [|w' ws].
  - cbn [join]. unfold split. rewrite <- (app_nil_r w) at 1.
    rewrite (split_words_no_space w [] [] Hw). cbn [app split_words].
    destruct w; [congruence | reflexivity].
  - change (join [32%N] (w :: w' :: ws)) with (w ++ 32%N :: join [32%N] (w' :: ws)).
    unfold split at 1. rewrite (split_words_no_space w _ [] Hw).
    cbn [app split_words]. replace (isspace 32%N) with true by reflexivity.
    destruct w as [|c w]; [congruence|]. cbn [is_empty].
    f_equal. apply (IH Hws).
Qed.

Lemma split_only_spaces (s cur : str) :
  Forall (fun c => isspace c = true) s ->
  split_words cur s = if is_empty cur then [] else [cur].
Proof.
  intros H. revert cur. induction H as [|c s Hc Hs IH]; intros cur; [reflexivity|].
  cbn [split_words]. rewrite Hc.
  destruct (is_empty cur) eqn:E; now rewrite IH.
Qed.

(** X9.  A text made of [n] words joined by single spaces has [n] words for
    [otimizar_prompt]: below ten words it gets the expansion, from ten to
    twenty-nine the structured layout, from thirty on the refined one. *)
Theorem joined_words_are_routed_by_their_number :
  forall ws : list str,
    Forall palavra ws ->
    split (join (U " ") ws) = ws
    /\ (length ws < 10 ->
        otimizar_prompt (join (U " ") ws) = _expandir_prompt (join (U " ") ws))
    /\ (10 <= length ws < 30 ->
        otimizar_prompt (join (U " ") ws) = _estruturar_prompt (join (U " ") ws))
    /\ (30 <= length ws ->
        otimizar_prompt (join (U " ") ws) = _refinar_prompt (join (U " ") ws)).
Proof.
  intros ws H. change (U " ") with [32%N].
  pose proof (split_join_words ws H) as E.
  split; [exact E|]. split; [|split]; intros Hn.
  - apply otimizar_prompt_short. now rewrite E.
  - apply otimizar_prompt_medium. now rewrite E.
  - apply otimizar_prompt_long. now rewrite E.
Qed.

Ltac são_palavras :=
  repeat (apply Forall_cons;
          [split; [discriminate
                  | repeat (apply Forall_cons; [reflexivity|]); apply Forall_nil]|]);
  apply Forall_nil.

Lemma joined_words_witness :
  split (join (U " ") [U "Me"; U "dê"; U "ideias."]) = [U "Me"; U "dê"; U "ideias."]
  /\ otimizar_prompt (join (U " ") [U "Me"; U "dê"; U "ideias."])
     = _expandir_prompt (join (U " ") [U "Me"; U "dê"; U "ideias."]).
Proof.
  assert (H : Forall palavra [U "Me"; U "dê"; U "ideias."]) by são_palavras.
  split.
  - exact (proj1 (joined_words_are_routed_by_their_number _ H)).
  - refine (proj1 (proj2 (joined_words_are_routed_by_their_number _ H)) _).
    vm_compute. lia.
Defined.

(** X10.  A text without a word, the empty text among them, gets the expansion:
    the output is the text followed by the fixed suffix. *)
Theorem blank_text_is_expanded :
  forall p : str,
    Forall (fun c => isspace c = true) p ->
    split p = [] /\ otimizar_prompt p = p ++ sufixo_expansão.
Proof.
  intros p H.
  assert (E : split p = []) by (unfold split; now rewrite split_only_spaces).
  split; [exact E|]. rewrite otimizar_prompt_short; [reflexivity|].
  rewrite E. cbn. lia.
Qed.

Lemma blank_text_witness :
  split [32%N; nl] = [] /\ otimizar_prompt [32%N; nl] = [32%N; nl] ++ sufixo_expansão.
Proof.
  refine (blank_text_is_expanded [32%N; nl] _).
  repeat (apply Forall_cons; [reflexivity|]). apply Forall_nil.
Defined.

(** ** The size of the optimized prompt *)

Lemma palavras_cons_space (w : char) (b : str) :
  isspace w = true -> palavras (w :: b) = palavras b.
Proof. intros Hw. apply (palavras_app_space [] w b Hw). Qed.

Lemma palavras_expandir (p : str) :
  palavras (_expandir_prompt p) = palavras p + 21.
Proof.
  unfold _expandir_prompt.
  assert (E : sufixo_expansão = nl :: tl sufixo_expansão) by (vm_compute; reflexivity).
  rewrite E, palavras_app_space by reflexivity.
  replace (palavras (tl sufixo_expansão)) with 21 by (vm_compute; reflexivity).
  reflexivity.
Qed.

Lemma palavras_estruturar (p : str) :
  palavras (_estruturar_prompt p) = palavras p + 38.
Proof.
  unfold _estruturar_prompt.
  assert (E : formato_desejado = nl :: tl formato_desejado) by (vm_compute; reflexivity).
  rewrite E. cbn [app].
  rewrite palavras_app_space by reflexivity.
  rewrite palavras_app_space by reflexivity.
  replace (palavras (U "# INSTRUÇÃO")) with 2 by (vm_compute; reflexivity).
  replace (palavras (tl formato_desejado)) with 36 by (vm_compute; reflexivity).
  lia.
Qed.

Lemma palavras_refinar (p : str) :
  palavras (_refinar_prompt p) = palavras p + palavras (primeira_linha p) + 54.
Proof.
  unfold _refinar_prompt. cbv zeta.
  change (match split_on nl p with l0 :: _ => l0 | [] => p end)
    with (primeira_linha p).
  assert (E : parâmetros_de_qualidade = removelast parâmetros_de_qualidade ++ [nl])
    by (vm_compute; reflexivity).
  rewrite E, <- (app_assoc (removelast parâmetros_de_qualidade)). cbn [app].
  rewrite (palavras_app_space (U "# OBJETIVO PRINCIPAL")) by reflexivity.
  rewrite (palavras_app_space (primeira_linha p)) by reflexivity.
  rewrite palavras_cons_space by reflexivity.
  rewrite (palavras_app_space (U "# CONTEXTO")) by reflexivity.
  rewrite (palavras_app_space (U "Entendendo o contexto completo fornecido"))
    by reflexivity.
  rewrite palavras_cons_space by reflexivity.
  rewrite (palavras_app_space (removelast parâmetros_de_qualidade)) by reflexivity.
  rewrite (palavras_app_space (U "# PROMPT ORIGINAL")) by reflexivity.
  replace (palavras (U "# OBJETIVO PRINCIPAL")) with 3 by (vm_compute; reflexivity).
  replace (palavras (U "# CONTEXTO")) with 2 by (vm_compute; reflexivity).
  replace (palavras (U "Entendendo o contexto completo fornecido")) with 5
    by (vm_compute; reflexivity).
  replace (palavras (removelast parâmetros_de_qualidade)) with 41
    by (vm_compute; reflexivity).
  replace (palavras (U "# PROMPT ORIGINAL")) with 3 by (vm_compute; reflexivity).
  lia.
Qed.

(** X11.  The layouts add words: the expansion 21, the structured layout 38, the
    refined layout 54 and the words of the first line, which it repeats.
    The output is longer than the input by 169 characters at least. *)
Theorem optimized_prompt_grows :
  forall p : str,
    (palavras p < 10 -> palavras (otimizar_prompt p) = palavras p + 21)
    /\ (10 <= palavras p < 30 -> palavras (otimizar_prompt p) = palavras p + 38)
    /\ (30 <= palavras p ->
        palavras (otimizar_prompt p)
        = palavras p + palavras (primeira_linha p) + 54)
    /\ length p + 169 <= length (otimizar_prompt p).
Proof.
  intros p. unfold palavras at 1 3 5. repeat apply conj.
  - intros H. rewrite (otimizar_prompt_short p H). apply palavras_expandir.
  - intros H. rewrite (otimizar_prompt_medium p H). apply palavras_estruturar.
  - intros H. rewrite (otimizar_prompt_long p H). apply palavras_refinar.
  - destruct (Nat.lt_ge_cases (length (split p)) 10) as [H|H].
    + rewrite (otimizar_prompt_short p H). unfold _expandir_prompt.
      rewrite length_app. change (length sufixo_expansão) with 169. lia.
    + destruct (Nat.lt_ge_cases (length (split p)) 30) as [H'|H'].
      * rewrite (otimizar_prompt_medium p (conj H H')). unfold _estruturar_prompt.
        rewrite !length_app. change (length formato_desejado) with 226. lia.
      * rewrite (otimizar_prompt_long p H'). unfold _refinar_prompt. cbv zeta.
        rewrite !length_app. change (length parâmetros_de_qualidade) with 294. lia.
Qed.

Lemma optimized_prompt_grows_witness :
  palavras (otimizar_prompt (U "Me dê ideias.")) = palavras (U "Me dê ideias.") + 21
  /\ palavras (otimizar_prompt (texto_de 10)) = palavras (texto_de 10) + 38
  /\ palavras (otimizar_prompt (texto_de 30))
     = palavras (texto_de 30) + palavras (primeira_linha (texto_de 30)) + 54.
Proof.
  split; [|split].
  - refine (proj1 (optimized_prompt_grows _) _). vm_compute. lia.
  - refine (proj1 (proj2 (optimized_prompt_grows _)) _). vm_compute. lia.
  - refine (proj1 (proj2 (proj2 (optimized_prompt_grows _))) _). vm_compute. lia.
Defined.




(** ** The first line in the refined layout *)

Lemma split_sep_head (sep : char) (s cur : str) :
  exists a rest,
    split_sep sep cur s = (cur ++ a) :: rest
    /\ ~ In sep a
    /\ (s = a \/ exists b, s = a ++ sep :: b).
Proof.
  revert cur. induction s as [|c s IH]; intros cur.
  - exists [], []. cbn [split_sep]. rewrite app_nil_r. auto.
  - cbn [split_sep]. destruct (N.eqb_spec c sep) as [->|Hc].
    + exists [], (split_sep sep [] s). rewrite app_nil_r.
      split; [reflexivity|]. split; [intros []|]. right. now exists s.
    + destruct (IH (cur ++ [c])) as (a & rest & E & Hno & Hs).
      exists (c :: a), rest. rewrite E, <- app_assoc. split; [reflexivity|].
      split; [intros [H|H]; [congruence | tauto]|].
      destruct Hs as [->|[b ->]]; [now left | right; now exists b].
Qed.

(** X13.  The main objective of the refined layout is the input up to its first
    line break, never the fallback of the code: [split] on a separator
    returns at least one piece.  A prompt of one line therefore appears
    twice in the output, as objective and as original prompt. *)
Theorem refined_layout_takes_the_first_line :
  forall p : str,
    split_on nl p <> []
    /\ ~ In nl (primeira_linha p)
    /\ (p = primeira_linha p \/ exists resto, p = primeira_linha p ++ nl :: resto)
    /\ (~ In nl p -> primeira_linha p = p)
    /\ _refinar_prompt p
       = U "# OBJETIVO PRINCIPAL" ++ [nl] ++ primeira_linha p ++ [nl; nl]
         ++ U "# CONTEXTO" ++ [nl] ++ U "Entendendo o contexto completo fornecido"
         ++ [nl; nl] ++ parâmetros_de_qualidade
         ++ U "# PROMPT ORIGINAL" ++ [nl] ++ p.
Proof.
  intros p. unfold primeira_linha, split_on.
  destruct (split_sep_head nl p []) as (a & rest & E & Hno & Hs).
  rewrite E. cbn [app]. split; [discriminate|]. split; [exact Hno|].
  split; [exact Hs|]. split.
  - intros Hp. destruct Hs as [->|[b ->]]; [reflexivity|].
    exfalso. apply Hp. apply in_or_app. right. now left.
  - unfold _refinar_prompt, split_on. cbv zeta. rewrite E. reflexivity.
Qed.

Lemma refined_layout_witness : primeira_linha (U "uma linha só") = U "uma linha só".
Proof.
  refine (proj1 (proj2 (proj2 (proj2
            (refined_layout_takes_the_first_line (U "uma linha só"))))) _).
  vm_compute. intros H.
  repeat (destruct H as [H|H]; [discriminate H|]). exact H.
Defined.

(** ** What the placeholder pattern returns *)

Lemma tokenize_fuel_names (fuel : nat) (s : str) :
  Forall (fun n => n <> [] /\ ~ In rbrace n) (tok_names (tokenize_fuel fuel s)).
Proof.
  revert s. induction fuel as [|fuel IH]; intros s; [constructor|].
  destruct s as [|c rest]; [constructor|]. cbn [tokenize_fuel].
  destruct (c =? lbrace)%N; [|rewrite tok_names_cons_chr; apply IH].
  destruct (break_at rbrace rest) as [[name after]|] eqn:E;
    [|rewrite tok_names_cons_chr; apply IH].
  apply break_at_Some in E as [_ Hno].
  destruct name as [|n0 name]; cbn [is_empty];
    [rewrite tok_names_cons_chr; apply IH|].
  rewrite tok_names_cons_tok. constructor; [|apply IH].
  split; [discriminate | exact Hno].
Qed.

Lemma tok_in_render (p : str) (its : list item) :
  In p (tok_names its) ->
  exists a b, render its = a ++ (lbrace :: p ++ [rbrace]) ++ b.
Proof.
  induction its as [|[c|n] its IH]; intros H; [destruct H| |].
  - rewrite tok_names_cons_chr in H. destruct (IH H) as (a & b & E).
    exists (c :: a), b. rewrite render_cons_chr, E. reflexivity.
  - rewrite tok_names_cons_tok in H. destruct H as [->|H].
    + exists [], (render its). rewrite render_cons_tok. cbn [app].
      now rewrite <- app_assoc.
    + destruct (IH H) as (a & b & E).
      exists ((lbrace :: n ++ [rbrace]) ++ a), b.
      rewrite render_cons_tok, E. cbn [app]. f_equal.
      now rewrite <- !app_assoc.
Qed.

(** X14.  Every name that [_extrair_placeholders] returns is not empty, holds no
    closing brace, and stands in the text between braces: the pattern that
    [preencher_template] builds from it occurs in the template. *)
Theorem extracted_placeholders_occur_in_the_text :
  forall (texto p : str),
    In p (_extrair_placeholders texto) ->
    p <> []
    /\ ~ In rbrace p
    /\ contains (lbrace :: p ++ [rbrace]) texto = true.
Proof.
  intros texto p H. unfold _extrair_placeholders in H.
  destruct (tokenize_spec texto) as (Hr & Hn & _). rewrite <- Hn in H.
  pose proof (tokenize_fuel_names (length texto) texto) as Hall.
  rewrite Forall_forall in Hall. destruct (Hall p H) as [Hne Hno].
  split; [exact Hne|]. split; [exact Hno|].
  destruct (tok_in_render p _ H) as (a & b & E).
  rewrite <- Hr, E. apply contains_middle.
Qed.

Lemma extracted_placeholders_witness :
  U "nível" <> []
  /\ ~ In rbrace (U "nível")
  /\ contains (lbrace :: U "nível" ++ [rbrace]) explique = true.
Proof.
  refine (extracted_placeholders_occur_in_the_text explique (U "nível") _).
  vm_compute. right. left. reflexivity.
Defined.

(** ** More on [preencher_template] *)

Lemma subst_with_no_tok (f : str -> option str) (its : list item) :
  tok_names its = [] -> subst_with f its = its.
Proof.
  induction its as [|[c|n] its IH]; intros H; [reflexivity| |].
  - rewrite subst_with_cons_chr. f_equal. now apply IH.
  - rewrite tok_names_cons_tok in H. discriminate H.
Qed.

Lemma fold_substituir_no_tok (valores : list (str * str)) (its : list item) :
  Forall (fun e => chave_simples (fst e)) valores ->
  inert its -> tok_names its = [] ->
  fold_left substituir valores (render its) = render its.
Proof.
  intros Hk Hi Hn. induction Hk as [|[k v] V [Hne Hplain] _ IH]; [reflexivity|].
  cbn [fst] in *. cbn [fold_left]. rewrite substituir_replace.
  rewrite (replace_render k v its Hne Hplain Hi) by (rewrite Hn; constructor).
  rewrite (subst_with_no_tok _ its Hn). exact IH.
Qed.

(** X15.  A format string in which the pattern finds no placeholder comes back
    unchanged, whatever the values, when the keys of the mapping are plain
    names. *)
Theorem template_without_placeholders_is_unchanged :
  forall (d : dict) (texto : str) (valores : list (str * str)),
    get (U "template") d = Some (VStr texto) ->
    _extrair_placeholders texto = [] ->
    Forall (fun e => chave_simples (fst e)) valores ->
    preencher_template (Some d) valores = Ok texto.
Proof.
  intros d texto valores Hd Hp Hk.
  rewrite (preencher_template_texto d texto valores Hd).
  unfold faltantes. unfold _extrair_placeholders in Hp. rewrite Hp.
  cbn [filter is_nil negb]. f_equal.
  destruct (tokenize_spec texto) as (Hr & Hn & Hi).
  assert (Hno : tok_names (tokenize texto) = []) by now rewrite Hn.
  pose proof (fold_substituir_no_tok valores (tokenize texto) Hk Hi Hno) as F.
  now rewrite Hr in F.
Qed.

Lemma template_without_placeholders_witness :
  preencher_template (template_com (U "Resuma o texto em {} linhas."))
    [(U "tema", U "{tema}")]
  = Ok (U "Resuma o texto em {} linhas.").
Proof.
  refine (template_without_placeholders_is_unchanged _
            (U "Resuma o texto em {} linhas.") [(U "tema", U "{tema}")] _ _ _).
  - vm_compute. reflexivity.
  - vm_compute. reflexivity.
  - apply Forall_cons; [é_chave_simples | apply Forall_nil].
Defined.

Lemma In_get (n v : str) (valores : list (str * str)) :
  NoDup (map fst valores) -> In (n, v) valores -> get n valores = Some v.
Proof.
  induction valores as [|[k x] V IH]; intros Hnd Hin; [destruct Hin|].
  cbn [map fst] in Hnd. inversion Hnd as [|? ? Hk HV]; subst.
  rewrite get_cons. destruct Hin as [[= -> ->]|Hin].
  - now rewrite str_eqb_refl.
  - destruct (str_eqb k n) eqn:E; [|now apply IH].
    apply str_eqb_eq in E as ->. exfalso. apply Hk.
    apply in_map_iff. now exists (n, v).
Qed.

Lemma get_permutation (n : str) (V V' : list (str * str)) :
  NoDup (map fst V) -> Permutation V V' -> get n V' = get n V.
Proof.
  intros Hnd Hp.
  assert (Hnd' : NoDup (map fst V')).
  { apply (Permutation_NoDup (l := map fst V)); [|exact Hnd].
    now apply Permutation_map. }
  destruct (get n V) as [v|] eqn:E.
  - apply In_get; [exact Hnd'|]. apply (Permutation_in _ Hp).
    now apply get_Some_In.
  - destruct (get n V') as [v'|] eqn:E'; [|reflexivity].
    apply get_Some_In in E'. apply (Permutation_in _ (Permutation_sym Hp)) in E'.
    rewrite (In_get n v' V Hnd E') in E. discriminate E.
Qed.

(** X16.  Under the conditions of the one-pass result (every placeholder bound,
    plain keys, no opening brace in a value), the order of the entries of
    the mapping does not matter: two mappings with the same entries, each
    key once, give the same text. *)
Theorem entry_order_does_not_matter :
  forall (d : dict) (texto : str) (valores valores' : list (str * str)),
    get (U "template") d = Some (VStr texto) ->
    (forall p, In p (_extrair_placeholders texto) -> has_key p valores = true) ->
    Forall (fun e => chave_simples (fst e) /\ ~ In lbrace (snd e)) valores ->
    NoDup (map fst valores) ->
    Permutation valores valores' ->
    preencher_template (Some d) valores' = preencher_template (Some d) valores.
Proof.
  intros d texto V V' Hd Hcov Hkv Hnd Hp.
  assert (Hget : forall n, get n V' = get n V)
    by (intros n; now apply get_permutation).
  assert (Hkv' : Forall (fun e : str * str => chave_simples (fst e)
                                              /\ ~ In lbrace (snd e)) V').
  { rewrite Forall_forall in *. intros e He. apply Hkv.
    apply (Permutation_in _ (Permutation_sym Hp) He). }
  assert (Hcov' : forall p, In p (_extrair_placeholders texto) -> has_key p V' = true).
  { intros p Hin. unfold has_key. rewrite Hget. now apply Hcov. }
  assert (Hsplit : forall W : list (str * str),
             Forall (fun e => chave_simples (fst e) /\ ~ In lbrace (snd e)) W ->
             Forall (fun e => chave_simples (fst e)) W
             /\ Forall (fun e => ~ In lbrace (snd e)) (removelast W)).
  { intros W HW. rewrite !Forall_forall in *. split.
    - intros e He. now destruct (HW e He).
    - intros e He. assert (Hin : In e W).
      { clear - He. induction W as [|a l IH]; [destruct He|].
        destruct l as [|b l]; [destruct He|].
        cbn [removelast] in He. destruct He as [->|He]; [now left|].
        right. now apply IH. }
      now destruct (HW e Hin). }
  destruct (Hsplit V Hkv) as [Hk Hv]. destruct (Hsplit V' Hkv') as [Hk' Hv'].
  rewrite (preencher_template_loop d texto V Hd Hcov Hk Hv).
  rewrite (preencher_template_loop d texto V' Hd Hcov' Hk' Hv').
  f_equal. f_equal. now apply subst_with_ext.
Qed.

Lemma entry_order_witness :
  preencher_template (Some d_explique)
    [(U "nível", U "exemplos simples"); (U "conceito", U "recursão")]
  = preencher_template (Some d_explique)
      [(U "conceito", U "recursão"); (U "nível", U "exemplos simples")].
Proof.
  refine (entry_order_does_not_matter d_explique explique
            [(U "conceito", U "recursão"); (U "nível", U "exemplos simples")]
            [(U "nível", U "exemplos simples"); (U "conceito", U "recursão")]
            _ _ _ _ _).
  - vm_compute. reflexivity.
  - intros p Hin. cobre Hin.
  - repeat (apply Forall_cons; [split; [é_chave_simples | sem_o_caractere]|]).
    apply Forall_nil.
  - vm_compute. repeat constructor.
    + intros [H|[]]. discriminate H.
    + intros [].
  - apply perm_swap.
Defined.

(** ** The two generators *)

(** With every field of the template bound, [format] gives the text in
    which each field stands replaced by its value. *)
Ltac campos_ligados kw Hcov :=
  cbv -[get];
  repeat (match goal with
          | |- context [@get ?V ?f kw] => destruct (@get V f kw) eqn:?
          end; cbv beta iota);
  try reflexivity;
  exfalso;
  match goal with
  | E : @get _ ?f kw = None |- _ =>
      let H := fresh "H" in
      let E' := fresh "E" in
      assert (H : has_key f kw = true)
        by (apply Hcov; vm_compute; repeat (first [left; reflexivity | right]));
      unfold has_key in H;
      destruct (get f kw) eqn:E'; [|discriminate H];
      discriminate (eq_trans (eq_sym E') E)
  end.

Lemma format_completo (tipo template : str) (kwargs : list (str * str)) :
  In (tipo, template) templates ->
  (forall p, In p (findall_placeholders template) -> has_key p kwargs = true) ->
  format template kwargs = Ok (substituir_uma_passagem template kwargs).
Proof.
  intros Ht Hcov. vm_compute in Ht.
  destruct Ht as [Ht | [Ht | [Ht | [Ht | [Ht | []]]]]];
    injection Ht as <- <-; campos_ligados kwargs Hcov.
Qed.

(** X17.  For a type of the table and keyword arguments that bind every field of
    its template, [gerar_prompt_básico] returns the template with each field
    replaced by its value, in one pass: the values are not read again, so
    braces inside a value stay as they are, and arguments that the template
    does not use are ignored. *)
Theorem basic_prompt_is_filled_in_one_pass :
  forall (tipo template : str) (kwargs : list (str * str)),
    get tipo templates = Some template ->
    (forall p, In p (findall_placeholders template) -> has_key p kwargs = true) ->
    gerar_prompt_básico tipo kwargs
    = Ok (substituir_uma_passagem template kwargs).
Proof.
  intros tipo template kwargs Ht Hcov. unfold gerar_prompt_básico. rewrite Ht.
  now rewrite (format_completo tipo template kwargs (get_Some_In _ _ _ Ht) Hcov).
Qed.

Lemma basic_prompt_witness :
  gerar_prompt_básico (U "técnico") kwargs_técnico
  = Ok (substituir_uma_passagem template_técnico kwargs_técnico).
Proof.
  refine (basic_prompt_is_filled_in_one_pass (U "técnico") template_técnico
            kwargs_técnico _ _).
  - vm_compute. reflexivity.
  - intros p Hin. cobre Hin.
Defined.

Example basic_prompt_keeps_braces :
  gerar_prompt_básico (U "técnico") kwargs_técnico
  = Ok (U "Você é um especialista em IA. Tutorial. Explique o campo {contexto} com exemplos.").
Proof. vm_compute. reflexivity. Qed.




(** ** The order of the passes *)

Lemma replace_token (k v n : str) :
  chave_simples k -> sem_chaves n ->
  replace (lbrace :: k ++ [rbrace]) v (lbrace :: n ++ [rbrace])
  = if str_eqb n k then v else lbrace :: n ++ [rbrace].
Proof.
  intros [Hne Hplain] Hn.
  pose proof (replace_render k v [Tok n] Hne Hplain I
                (Forall_cons _ Hn (Forall_nil _))) as E.
  rewrite render_cons_tok in E. cbn [render flat_map] in E.
  rewrite E, subst_with_cons_tok. unfold único.
  destruct (str_eqb n k).
  - rewrite render_app, render_map_chr. apply app_nil_r.
  - now rewrite render_cons_tok.
Qed.

Lemma findall_token (n : str) :
  chave_simples n -> findall_placeholders (lbrace :: n ++ [rbrace]) = [n].
Proof.
  intros [Hne [_ Hr]].
  pose proof (findall_render [Tok n] I) as E.
  rewrite render_cons_tok in E. cbn [render flat_map] in E.
  apply E. constructor; [now split | constructor].
Qed.

(** X19.  What becomes of a token inside a value depends on the order of the
    entries.  For two distinct plain names [a] and [b], with the template
    made of the placeholder of [a] and the value of [a] made of the
    placeholder of [b]: when the entry of [b] comes second its pass replaces
    the token, and the result is the value of [b]; when it comes first the
    token stays. *)
Theorem token_in_a_value_meets_the_later_passes :
  forall a b x : str,
    chave_simples a -> chave_simples b -> a <> b ->
    preencher_template (template_com (lbrace :: a ++ [rbrace]))
      [(a, lbrace :: b ++ [rbrace]); (b, x)] = Ok x
    /\ preencher_template (template_com (lbrace :: a ++ [rbrace]))
         [(b, x); (a, lbrace :: b ++ [rbrace])] = Ok (lbrace :: b ++ [rbrace]).
Proof.
  intros a b x Ha Hb Hab.
  assert (Hd : get (U "template")
                 [ (U "nome", VStr (U "exemplo")); (U "categoria", VStr (U "geral"));
                   (U "template", VStr (lbrace :: a ++ [rbrace])) ]
               = Some (VStr (lbrace :: a ++ [rbrace])))
    by (vm_compute; reflexivity).
  assert (Hba : str_eqb b a = false) by (apply str_eqb_neq; congruence).
  assert (Hab' : str_eqb a b = false) by now apply str_eqb_neq.
  unfold template_com. split.
  - rewrite (preencher_template_texto _ _ _ Hd).
    rewrite faltantes_nil.
    + cbn [is_nil negb fold_left]. rewrite !substituir_replace.
      rewrite (replace_token a _ a Ha (proj2 Ha)), str_eqb_refl.
      rewrite (replace_token b x b Hb (proj2 Hb)), str_eqb_refl. reflexivity.
    + intros p Hp. unfold _extrair_placeholders in Hp.
      rewrite (findall_token a Ha) in Hp. destruct Hp as [<-|[]].
      unfold has_key. rewrite get_cons, str_eqb_refl. reflexivity.
  - rewrite (preencher_template_texto _ _ _ Hd).
    rewrite faltantes_nil.
    + cbn [is_nil negb fold_left]. rewrite !substituir_replace.
      rewrite (replace_token b x a Hb (proj2 Ha)), Hab'.
      rewrite (replace_token a _ a Ha (proj2 Ha)), str_eqb_refl. reflexivity.
    + intros p Hp. unfold _extrair_placeholders in Hp.
      rewrite (findall_token a Ha) in Hp. destruct Hp as [<-|[]].
      unfold has_key. rewrite !get_cons, Hba, str_eqb_refl. reflexivity.
Qed.

Lemma token_in_a_value_witness :
  preencher_template (template_com (lbrace :: U "a" ++ [rbrace]))
    [(U "a", lbrace :: U "b" ++ [rbrace]); (U "b", U "X")] = Ok (U "X")
  /\ preencher_template (template_com (lbrace :: U "a" ++ [rbrace]))
       [(U "b", U "X"); (U "a", lbrace :: U "b" ++ [rbrace])]
     = Ok (lbrace :: U "b" ++ [rbrace]).
Proof.
  refine (token_in_a_value_meets_the_later_passes (U "a") (U "b") (U "X") _ _ _).
  - é_chave_simples.
  - é_chave_simples.
  - vm_compute. discriminate.
Defined.
